(** * thinkdrop-conversation: context extraction, entity store and semantic search

    A shallow embedding of the conversation service's core:
    - [src/services/contextExtractor.cjs]  (class [ContextExtractor]),
    - [src/handlers/contextHandler.cjs]    ([ContextHandler.addEntity]),
    - [src/handlers/semanticSearchHandler.cjs] ([cosineSimilarity], [searchMessages]).

    JavaScript numbers are IEEE-754 binary64 values; they are embedded as Rocq's
    primitive floats.  Exceptions are embedded as an explicit [result] type,
    remote services, the clock and the database as explicit inputs. *)

From Stdlib Require Import Bool Arith ZArith Lia String Ascii List.
From Stdlib Require Import Permutation Sorted Floats Reals Lra DecimalString.
Import ListNotations.

Set Implicit Arguments.
Set Warnings "-inexact-float,-register-all".

Local Open Scope string_scope.
Local Open Scope list_scope.

(** ** Exceptions *)

(** The error objects the code throws or lets escape, with their messages. *)
Inductive js_error : Type :=
| Error (message : string)
| TypeError (message : string)
| SyntaxError (message : string).

(** Outcome of a call: a returned value, or a thrown error (for an [async]
    function: a resolved or a rejected promise). *)
Inductive result (A : Type) : Type :=
| Ok (a : A)
| Throw (e : js_error).
Arguments Ok {A} a.
Arguments Throw {A} e.

Definition bind {A B : Type} (r : result A) (k : A -> result B) : result B :=
  match r with
  | Ok a => k a
  | Throw e => Throw e
  end.

Declare Scope js_scope.
Delimit Scope js_scope with js.
Notation "'let*' x ':=' c 'in' k" := (bind c (fun x => k))
  (at level 61, x pattern, c at next level, right associativity) : js_scope.

Definition message_of (e : js_error) : string :=
  match e with
  | Error m => m
  | TypeError m => m
  | SyntaxError m => m
  end.

Definition raises {A : Type} (r : result A) : Prop :=
  exists e, r = Throw e.

(** [Array.prototype.map] with a callback that may throw: the first throw
    aborts the whole map. *)
Fixpoint array_map {A B : Type} (f : A -> result B) (l : list A) : result (list B) :=
  match l with
  | [] => Ok []
  | x :: l' =>
      (let* y := f x in
       let* ys := array_map f l' in
       Ok (y :: ys))%js
  end.

(** [Array.prototype.slice(start, end)] on integer arguments: a negative
    index counts from the end of the array, and both are clamped to it. *)
Definition relative_index (len k : Z) : Z :=
  if (k <? 0)%Z then Z.max (len + k) 0 else Z.min k len.

Definition slice {A : Type} (l : list A) (start stop : Z) : list A :=
  let len := Z.of_nat (length l) in
  let from := relative_index len start in
  let final := relative_index len stop in
  firstn (Z.to_nat (final - from)) (skipn (Z.to_nat from) l).

(** [slice(start)]: up to the end of the array. *)
Definition slice_from {A : Type} (l : list A) (start : Z) : list A :=
  slice l start (Z.of_nat (length l)).

(** ** Numbers *)

(** The arithmetic [cosineSimilarity] and [searchMessages] use.  The program
    runs on binary64 ([float_number]); [real_number] is the same interface in
    exact arithmetic. *)
Class JsNumber (num : Type) : Type := {
  num_zero : num;
  num_half : num;
  num_add : num -> num -> num;
  num_sub : num -> num -> num;
  num_mul : num -> num -> num;
  num_div : num -> num -> num;
  num_sqrt : num -> num;
  num_eq : num -> num -> bool;
  num_ge : num -> num -> bool;
  num_gt : num -> num -> bool
}.

#[export] Instance float_number : JsNumber float := {
  num_zero := 0%float;
  num_half := 0.5%float;
  num_add := PrimFloat.add;
  num_sub := PrimFloat.sub;
  num_mul := PrimFloat.mul;
  num_div := PrimFloat.div;
  num_sqrt := PrimFloat.sqrt;
  num_eq := PrimFloat.eqb;
  num_ge := fun x y => PrimFloat.leb y x;
  num_gt := fun x y => PrimFloat.ltb y x
}.

#[export] Instance real_number : JsNumber R := {
  num_zero := 0%R;
  num_half := (1 / 2)%R;
  num_add := Rplus;
  num_sub := Rminus;
  num_mul := Rmult;
  num_div := Rdiv;
  num_sqrt := R_sqrt.sqrt;
  num_eq := fun x y => if Req_dec_T x y then true else false;
  num_ge := fun x y => if Rle_dec y x then true else false;
  num_gt := fun x y => if Rlt_dec y x then true else false
}.

(** A binary64 zero, of either sign. *)
Definition is_zero (x : float) : bool :=
  PrimFloat.eqb x 0%float.

(** ** Similarity ranker and semantic retriever
    ([src/handlers/semanticSearchHandler.cjs]) *)

Module Search.

Section WithNumbers.

Context {num : Type} {N : JsNumber num}.

(** The three accumulators of the loop of [cosineSimilarity]. *)
Definition accumulate (acc : num * num * num) (ab : num * num) : num * num * num :=
  let '(dotProduct, normA, normB) := acc in
  let '(a, b) := ab in
  (num_add dotProduct (num_mul a b),
   num_add normA (num_mul a a),
   num_add normB (num_mul b b)).

Definition cosineSimilarity (vecA vecB : list num) : result num :=
  if negb (length vecA =? length vecB)%nat then
    Throw (Error "Vectors must have the same length")
  else
    let '(dotProduct, normA, normB) :=
      fold_left accumulate (combine vecA vecB) (num_zero, num_zero, num_zero) in
    let normA := num_sqrt normA in
    let normB := num_sqrt normB in
    if num_eq normA num_zero || num_eq normB num_zero then Ok num_zero
    else Ok (num_div dotProduct (num_mul normA normB)).

(** The sums the loop accumulates, each on its own. *)
Definition dot_product_from (acc : num) (a b : list num) : num :=
  fold_left (fun acc p => num_add acc (num_mul (fst p) (snd p))) (combine a b) acc.

Definition sum_of_squares_from (acc : num) (v : list num) : num :=
  fold_left (fun acc x => num_add acc (num_mul x x)) v acc.

(** The magnitude the code computes for one vector. *)
Definition sum_of_squares (v : list num) : num :=
  sum_of_squares_from num_zero v.

Definition magnitude (v : list num) : num :=
  num_sqrt (sum_of_squares v).

(** *** Stored messages *)

(** The [embedding] column of a row of [conversation_messages], as
    [searchMessages] reads it: absent (NULL or the empty string, both falsy),
    a string [JSON.parse] throws on (a string that parses to [null] is read
    the same way), or an array of numbers (stored as such or as its JSON
    text, as [storeMessageEmbedding] writes it). *)
Inductive embedding_column : Type :=
| EmbeddingNull
| EmbeddingUnparsable
| EmbeddingVector (v : list num).

(** The [metadata] column: NULL or empty, a string [JSON.parse] throws on,
    or JSON text (kept as text). *)
Inductive metadata_column : Type :=
| MetadataNull
| MetadataUnparsable
| MetadataJson (text : string).

Record message_row : Type := {
  msg_id : string;
  msg_session_id : string;
  msg_content : string;
  msg_role : string;
  msg_created_at : string;
  msg_metadata : metadata_column;
  msg_embedding : embedding_column
}.

(** An element of [scoredMessages]. *)
Record scored_message : Type := {
  sm_id : string;
  sm_sessionId : string;
  sm_text : string;
  sm_sender : string;
  sm_timestamp : string;
  sm_metadata : string;
  similarity : num;
  hasEmbedding : bool
}.

(** An element of [combinedMessages]: [{ ...msg, reason }]. *)
Record found_message : Type := {
  found : scored_message;
  reason : string
}.

Record search_stats : Type := {
  totalMessages : nat;
  recentCount : nat;
  semanticCount : nat;
  messagesWithEmbeddings : nat
}.

Record search_result : Type := {
  messages : list found_message;
  count : nat;
  searchQuery : string;
  method : string;
  stats : option search_stats
}.

(** The request payload; [None] is an absent ([undefined]) property. *)
Record search_payload : Type := {
  sessionId : option string;
  query : option string;
  limit : option Z;
  minSimilarity : option num;
  includeRecent : option Z
}.

(** What the two collaborators answer during one call: the phi4
    [embedding.generate] request and the database query (the rows of the
    session, [ORDER BY created_at DESC]). *)
Record search_env : Type := {
  phi4_embedding : result (list num);
  db_messages : result (list message_row)
}.

Definition with_default {A : Type} (d : A) (o : option A) : A :=
  match o with
  | Some a => a
  | None => d
  end.

(** [!s] for an optional string. *)
Definition missing (s : option string) : bool :=
  match s with
  | None => true
  | Some s => (String.length s =? 0)%nat
  end.

Definition generateEmbedding (env : search_env) : result (list num) :=
  match phi4_embedding env with
  | Ok embedding => Ok embedding
  | Throw e => Throw (Error ("Failed to generate embedding: " ++ message_of e))
  end.

(** The [try { JSON.parse } catch { warn }] block of the scoring callback:
    [null] unless the column holds a vector. *)
Definition parse_embedding (msg : message_row) : option (list num) :=
  match msg_embedding msg with
  | EmbeddingNull => None
  | EmbeddingUnparsable => None
  | EmbeddingVector v => Some v
  end.

(** [JSON.parse(msg.metadata || '{}')], not guarded by any [try]. *)
Definition parse_metadata (msg : message_row) : result string :=
  match msg_metadata msg with
  | MetadataNull => Ok "{}"
  | MetadataUnparsable => Throw (SyntaxError "Unexpected token in JSON")
  | MetadataJson text => Ok text
  end.

(** The callback of [messages.map(msg => ...)]. *)
Definition scoreMessage (queryEmbedding : list num) (msg : message_row)
  : result scored_message :=
  let embedding := parse_embedding msg in
  (let* sim :=
     match embedding with
     | Some e => cosineSimilarity queryEmbedding e
     | None => Ok num_zero
     end in
   let* metadata := parse_metadata msg in
   Ok {| sm_id := msg_id msg;
         sm_sessionId := msg_session_id msg;
         sm_text := msg_content msg;
         sm_sender := msg_role msg;
         sm_timestamp := msg_created_at msg;
         sm_metadata := metadata;
         similarity := sim;
         hasEmbedding := match embedding with Some _ => true | None => false end |})%js.

(** [Array.prototype.sort(compare)]: a stable sort; [x] goes after [y] when
    [compare x y > 0].  (For an inconsistent comparator the order is
    implementation-defined; the result is a permutation in any case.) *)
Fixpoint sort_insert {A : Type} (compare : A -> A -> num) (x : A) (l : list A) : list A :=
  match l with
  | [] => [x]
  | y :: l' =>
      if num_gt (compare x y) num_zero then y :: sort_insert compare x l'
      else x :: l
  end.

Definition sort {A : Type} (compare : A -> A -> num) (l : list A) : list A :=
  fold_right (sort_insert compare) [] l.

Definition tag (r : string) (msg : scored_message) : found_message :=
  {| found := msg; reason := r |}.

(** The part of [searchMessages] from [recentMessages] to
    [combinedMessages]. *)
Definition recentMessages (scoredMessages : list scored_message) (includeRecent : Z)
  : list scored_message :=
  slice scoredMessages 0 includeRecent.

Definition semanticMatches (scoredMessages : list scored_message)
  (limit : Z) (minSimilarity : num) (includeRecent : Z) : list scored_message :=
  slice
    (sort (fun a b => num_sub (similarity b) (similarity a))
       (filter (fun msg => num_ge (similarity msg) minSimilarity)
          (slice_from scoredMessages includeRecent)))
    0 (limit - includeRecent).

Definition combinedMessages (scoredMessages : list scored_message)
  (limit : Z) (minSimilarity : num) (includeRecent : Z) : list found_message :=
  map (tag "recent") (recentMessages scoredMessages includeRecent)
  ++ map (tag "semantic") (semanticMatches scoredMessages limit minSimilarity includeRecent).

(** The defaults of the destructured payload:
    [limit = 5], [minSimilarity = 0.5], [includeRecent = 3]. *)
Definition limit_of (payload : search_payload) : Z :=
  with_default 5%Z (limit payload).

Definition minSimilarity_of (payload : search_payload) : num :=
  with_default num_half (minSimilarity payload).

Definition includeRecent_of (payload : search_payload) : Z :=
  with_default 3%Z (includeRecent payload).

Definition searchMessages (payload : search_payload) (env : search_env)
  : result search_result :=
  let limit := limit_of payload in
  let minSimilarity := minSimilarity_of payload in
  let includeRecent := includeRecent_of payload in
  if missing (sessionId payload) || missing (query payload) then
    Throw (Error "sessionId and query are required")
  else
    let searchQuery := with_default "" (query payload) in
    (let* queryEmbedding := generateEmbedding env in
     let* messages := db_messages env in
     if (length messages =? 0)%nat then
       Ok {| messages := [];
             count := 0;
             searchQuery := searchQuery;
             method := "semantic";
             stats := None |}
     else
       let* scoredMessages := array_map (scoreMessage queryEmbedding) messages in
       let recent := recentMessages scoredMessages includeRecent in
       let semantic := semanticMatches scoredMessages limit minSimilarity includeRecent in
       let combined := combinedMessages scoredMessages limit minSimilarity includeRecent in
       Ok {| messages := combined;
             count := length combined;
             searchQuery := searchQuery;
             method := "semantic";
             stats := Some {| totalMessages := length messages;
                              recentCount := length recent;
                              semanticCount := length semantic;
                              messagesWithEmbeddings :=
                                length (filter hasEmbedding scoredMessages) |} |})%js.


Definition is_recent (m : found_message) : bool :=
  String.eqb (reason m) "recent".

End WithNumbers.

Arguments embedding_column num : clear implicits.
Arguments message_row num : clear implicits.
Arguments scored_message num : clear implicits.
Arguments found_message num : clear implicits.
Arguments search_result num : clear implicits.
Arguments search_payload num : clear implicits.
Arguments search_env num : clear implicits.

End Search.

(** ** JavaScript values and strings
    Strings are ASCII text: one character is one code unit, and case and
    white space are those of ASCII. *)

(** A value as the extractor meets it: what [JSON.parse] can produce, plus
    [undefined] and the members inherited from [Object.prototype] (kept by
    the text they convert to). *)
Inductive js_value : Type :=
| Undefined
| Null
| Boolean (b : bool)
| Number (x : float)
| Str (s : string)
| Array (items : list js_value)
| Object (properties : list (string * js_value))
| Builtin (text : string).

Fixpoint lookup {A : Type} (name : string) (properties : list (string * A)) : option A :=
  match properties with
  | [] => None
  | (k, v) :: rest => if String.eqb k name then Some v else lookup name rest
  end.

(** [v.name]: a [TypeError] on [null] and [undefined]; none of the names the
    extractor reads is inherited, so they are [undefined] on anything but an
    object that has them. *)
Definition get (v : js_value) (name : string) : result js_value :=
  match v with
  | Undefined => Throw (TypeError ("Cannot read properties of undefined (reading '" ++ name ++ "')"))
  | Null => Throw (TypeError ("Cannot read properties of null (reading '" ++ name ++ "')"))
  | Object properties =>
      match lookup name properties with
      | Some x => Ok x
      | None => Ok Undefined
      end
  | _ => Ok Undefined
  end.

(** [v?.name] *)
Definition get_optional (v : js_value) (name : string) : js_value :=
  match get v name with
  | Ok x => x
  | Throw _ => Undefined
  end.

Definition truthy (v : js_value) : bool :=
  match v with
  | Undefined => false
  | Null => false
  | Boolean b => b
  | Number x => negb (PrimFloat.eqb x 0%float || PrimFloat.is_nan x)
  | Str s => negb (String.length s =? 0)%nat
  | Array _ => true
  | Object _ => true
  | Builtin _ => true
  end.

(** [a || b] *)
Definition or_else (a b : js_value) : js_value :=
  if truthy a then a else b.

(** [v === 'literal'] *)
Definition is_string (v : js_value) (literal : string) : bool :=
  match v with
  | Str s => String.eqb s literal
  | _ => false
  end.

Definition between (lo hi c : ascii) : bool :=
  (nat_of_ascii lo <=? nat_of_ascii c)%nat && (nat_of_ascii c <=? nat_of_ascii hi)%nat.

Definition lower_char (c : ascii) : ascii :=
  if between "A" "Z" c then ascii_of_nat (nat_of_ascii c + 32) else c.

(** [String.prototype.toLowerCase], on ASCII text. *)
Fixpoint toLowerCase (s : string) : string :=
  match s with
  | EmptyString => EmptyString
  | String c s' => String (lower_char c) (toLowerCase s')
  end.

(** [\w] *)
Definition is_word (c : ascii) : bool :=
  between "a" "z" c || between "A" "Z" c || between "0" "9" c || Ascii.eqb c "_".

(** [\s], on ASCII text: tab, line feed, vertical tab, form feed, carriage
    return and space. *)
Definition is_space (c : ascii) : bool :=
  (9 <=? nat_of_ascii c)%nat && (nat_of_ascii c <=? 13)%nat || (nat_of_ascii c =? 32)%nat.

(** [[\w\s]] *)
Definition is_word_or_space (c : ascii) : bool :=
  is_word c || is_space c.

Fixpoint trimStart (s : string) : string :=
  match s with
  | EmptyString => EmptyString
  | String c s' => if is_space c then trimStart s' else s
  end.

Fixpoint trimEnd (s : string) : string :=
  match s with
  | EmptyString => EmptyString
  | String c s' =>
      match trimEnd s' with
      | EmptyString => if is_space c then EmptyString else String c EmptyString
      | t => String c t
      end
  end.

(** [String.prototype.trim] *)
Definition trim (s : string) : string :=
  trimEnd (trimStart s).

(** [String.prototype.includes] *)
Fixpoint includes (s part : string) : bool :=
  if String.prefix part s then true
  else
    match s with
    | EmptyString => false
    | String _ s' => includes s' part
    end.

(** ** Regular expressions
    The fragment of the regular-expression language the four patterns of the
    extractor are written in, with the backtracking order of
    [String.prototype.match]. All four carry the [i] flag. *)
Inductive regex : Type :=
| Lit (t : string)                    (* literal text *)
| Alt (r1 r2 : regex)                 (* r1|r2 *)
| Seq (r1 r2 : regex)                 (* r1r2 *)
| Plus (class : ascii -> bool)        (* class+ , greedy *)
| PlusLazy (class : ascii -> bool)    (* class+? , lazy *)
| Group (r : regex)                   (* (r) , capturing *)
| EndOfInput.                         (* $ *)

(** The rest of [s] after the literal [t], compared without case. *)
Fixpoint after_literal (t s : string) : option string :=
  match t, s with
  | EmptyString, _ => Some s
  | String _ _, EmptyString => None
  | String a t', String b s' =>
      if Ascii.eqb (lower_char a) (lower_char b) then after_literal t' s' else None
  end.

(** [class+]: at least one character, as many as possible first. *)
Fixpoint plus_greedy {R : Type} (class : ascii -> bool) (s : string)
  (k : string -> option R) : option R :=
  match s with
  | EmptyString => None
  | String c s' =>
      if class c then
        match plus_greedy class s' k with
        | Some r => Some r
        | None => k s'
        end
      else None
  end.

(** [class+?]: at least one character, as few as possible first. *)
Fixpoint plus_lazy {R : Type} (class : ascii -> bool) (s : string)
  (k : string -> option R) : option R :=
  match s with
  | EmptyString => None
  | String c s' =>
      if class c then
        match k s' with
        | Some r => Some r
        | None => plus_lazy class s' k
        end
      else None
  end.

(** The text consumed between the input [s] and its suffix [rest]. *)
Definition consumed (s rest : string) : string :=
  String.substring 0 (String.length s - String.length rest) s.

(** Match [r] at the start of [s], then continue with [k] on the rest of
    the input and the captures so far; [None] makes the matcher backtrack. *)
Fixpoint match_here {R : Type} (r : regex) (s : string) (captures : list string)
  (k : string -> list string -> option R) : option R :=
  match r with
  | Lit t =>
      match after_literal t s with
      | Some rest => k rest captures
      | None => None
      end
  | Alt r1 r2 =>
      match match_here r1 s captures k with
      | Some x => Some x
      | None => match_here r2 s captures k
      end
  | Seq r1 r2 =>
      match_here r1 s captures (fun rest captures' => match_here r2 rest captures' k)
  | Plus class => plus_greedy class s (fun rest => k rest captures)
  | PlusLazy class => plus_lazy class s (fun rest => k rest captures)
  | Group r1 =>
      match_here r1 s captures
        (fun rest captures' => k rest (captures' ++ [consumed s rest]))
  | EndOfInput =>
      match s with
      | EmptyString => k s captures
      | String _ _ => None
      end
  end.

(** [text.match(regex)] without the [g] flag: the leftmost match; the
    result lists the captured groups, [match[1]] first. *)
Fixpoint regex_match (r : regex) (text : string) : option (list string) :=
  match match_here r text [] (fun _ captures => Some captures) with
  | Some captures => Some captures
  | None =>
      match text with
      | EmptyString => None
      | String _ text' => regex_match r text'
      end
  end.

Definition sequence (rs : list regex) : regex :=
  fold_right Seq (Lit "") rs.

Definition group (captures : list string) (i : nat) : string :=
  nth (i - 1) captures "".

(** ** Context extraction ([src/services/contextExtractor.cjs]) *)

Module Extractor.

(** A fact, as [extractQuickFacts] and [extractFactsViaLLM] build it. *)
Record fact : Type := {
  key : string;
  value : js_value;
  confidence : float
}.

(** An entity candidate, as [extractEntitiesViaPhi4] builds it. *)
Record entity : Type := {
  entity_type : js_value;
  entity_value : js_value;
  entity_confidence : js_value;
  startPos : js_value;
  endPos : js_value
}.

(** The object [extract] returns. *)
Record extraction : Type := {
  facts : list fact;
  entities : list entity;
  sessionId : js_value;
  extractedAt : string;
  method : string
}.

(** What the outside world answers during one call of [extract]: the
    promise of [axios.post] to phi4's [entity.extract] (rejected on a
    timeout, a transport error or an error status; otherwise resolved with a
    response whose [data] is the value given) and the clock read by
    [new Date().toISOString()]. *)
Record extract_env : Type := {
  phi4_response : result js_value;
  now : string
}.

(** [/my (?:favorite|fav) (\w+) is ([\w\s]+?)(?:\.|$|,)/i] *)
Definition favorite_regex : regex :=
  sequence [Lit "my "; Alt (Lit "favorite") (Lit "fav"); Lit " ";
            Group (Plus is_word); Lit " is "; Group (PlusLazy is_word_or_space);
            Alt (Lit ".") (Alt EndOfInput (Lit ","))].

(** [/my name is (\w+)/i] *)
Definition name_regex : regex :=
  sequence [Lit "my name is "; Group (Plus is_word)].

(** [/I (?:love|like|enjoy|prefer) ([\w\s]+?)(?:\.|$|,)/i] *)
Definition love_regex : regex :=
  sequence [Lit "I ";
            Alt (Lit "love") (Alt (Lit "like") (Alt (Lit "enjoy") (Lit "prefer")));
            Lit " "; Group (PlusLazy is_word_or_space);
            Alt (Lit ".") (Alt EndOfInput (Lit ","))].

(** [/I(?:'m| am) from ([\w\s]+?)(?:\.|$|,)/i] *)
Definition from_regex : regex :=
  sequence [Lit "I"; Alt (Lit "'m") (Lit " am"); Lit " from ";
            Group (PlusLazy is_word_or_space);
            Alt (Lit ".") (Alt EndOfInput (Lit ","))].

(** [this.quickFactPatterns] *)
Definition quickFactPatterns : list (regex * (list string -> fact)) :=
  [ (favorite_regex,
     fun m => {| key := "favorite_" ++ group m 1;
                 value := Str (trim (group m 2));
                 confidence := 0.9%float |});
    (name_regex,
     fun m => {| key := "user_name";
                 value := Str (group m 1);
                 confidence := 0.95%float |}) ].

Definition extractQuickFacts (text : string) : list fact :=
  flat_map
    (fun pattern : regex * (list string -> fact) =>
       match regex_match (fst pattern) text with
       | Some m => [snd pattern m]
       | None => []
       end)
    quickFactPatterns.

(** The own properties of [typeMap]. *)
Definition typeMap : list (string * string) :=
  [ ("PERSON", "person");
    ("ORGANIZATION", "organization");
    ("ORG", "organization");
    ("LOCATION", "place");
    ("LOC", "place");
    ("GPE", "place");
    ("DATE", "date");
    ("TIME", "time");
    ("PRODUCT", "product");
    ("EVENT", "event");
    ("FOOD", "food");
    ("WORK_OF_ART", "media") ].

(** What [typeMap[name]] finds on [Object.prototype], the prototype of the
    object literal, when [name] is no own property. All of it is truthy. *)
Definition inherited : list (string * js_value) :=
  [ ("constructor", Builtin "function Object() { [native code] }");
    ("hasOwnProperty", Builtin "function hasOwnProperty() { [native code] }");
    ("isPrototypeOf", Builtin "function isPrototypeOf() { [native code] }");
    ("propertyIsEnumerable", Builtin "function propertyIsEnumerable() { [native code] }");
    ("toLocaleString", Builtin "function toLocaleString() { [native code] }");
    ("toString", Builtin "function toString() { [native code] }");
    ("valueOf", Builtin "function valueOf() { [native code] }");
    ("__defineGetter__", Builtin "function __defineGetter__() { [native code] }");
    ("__defineSetter__", Builtin "function __defineSetter__() { [native code] }");
    ("__lookupGetter__", Builtin "function __lookupGetter__() { [native code] }");
    ("__lookupSetter__", Builtin "function __lookupSetter__() { [native code] }");
    ("__proto__", Builtin "[object Object]") ].

(** The property key a value converts to in [typeMap[phi4Type]]. [None]
    stands for the keys that certainly name nothing in [typeMap] or
    [inherited]: the decimal text of a number and the comma-separated text
    of an array of two or more elements. *)
Fixpoint property_key (v : js_value) : option string :=
  match v with
  | Undefined => Some "undefined"
  | Null => Some "null"
  | Boolean true => Some "true"
  | Boolean false => Some "false"
  | Number _ => None
  | Str s => Some s
  | Array [] => Some ""
  | Array [Undefined] => Some ""
  | Array [Null] => Some ""
  | Array [x] => property_key x
  | Array _ => None
  | Object _ => Some "[object Object]"
  | Builtin text => Some text
  end.

Definition typeMap_get (phi4Type : js_value) : js_value :=
  match property_key phi4Type with
  | Some name =>
      match lookup name typeMap with
      | Some t => Str t
      | None =>
          match lookup name inherited with
          | Some member => member
          | None => Undefined
          end
      end
  | None => Undefined
  end.

(** [typeMap[phi4Type] || phi4Type.toLowerCase()]: only a string has a
    [toLowerCase] method. *)
Definition normalizeEntityType (phi4Type : js_value) : result js_value :=
  if truthy (typeMap_get phi4Type) then Ok (typeMap_get phi4Type)
  else
    match phi4Type with
    | Str s => Ok (Str (toLowerCase s))
    | Undefined => Throw (TypeError "Cannot read properties of undefined (reading 'toLowerCase')")
    | Null => Throw (TypeError "Cannot read properties of null (reading 'toLowerCase')")
    | _ => Throw (TypeError "phi4Type.toLowerCase is not a function")
    end.

(** The callback of [response.data.data.entities.map(entity => ...)]. *)
Definition candidate (raw : js_value) : result entity :=
  (let* raw_type := get raw "type" in
   let* type := normalizeEntityType raw_type in
   let* text := get raw "text" in
   let* val := get raw "value" in
   let* conf := get raw "confidence" in
   let* start := get raw "start" in
   let* stop := get raw "end" in
   Ok {| entity_type := type;
         entity_value := or_else text val;
         entity_confidence := or_else conf (Number 0.8%float);
         startPos := start;
         endPos := stop |})%js.

(** The body of the [try] block of [extractEntitiesViaPhi4], from the
    awaited response on. *)
Definition entities_of_response (response : result js_value) : result (list entity) :=
  (let* data := response in
   let found := get_optional (get_optional data "data") "entities" in
   if is_string (get_optional data "status") "ok" && truthy found then
     match found with
     | Array items => array_map candidate items
     | _ => Throw (TypeError "response.data.data.entities.map is not a function")
     end
   else Ok [])%js.

(** [extractEntitiesViaPhi4]: the [catch] turns every error into the empty
    array. *)
Definition extractEntitiesViaPhi4 (env : extract_env) : result (list entity) :=
  match entities_of_response (phi4_response env) with
  | Ok found => Ok found
  | Throw _ => Ok []
  end.

(** The shape of a response the client expects: [status] is "ok",
    [data.entities] is an array, and every item of it is a value (not
    [null]) whose [type] is a key of [typeMap] or a string. *)
Definition response_entities (data : js_value) : option (list js_value) :=
  if is_string (get_optional data "status") "ok" then
    match get_optional (get_optional data "data") "entities" with
    | Array items => Some items
    | _ => None
    end
  else None.

Definition typed_item (raw : js_value) : bool :=
  match raw with
  | Undefined => false
  | Null => false
  | _ =>
      truthy (typeMap_get (get_optional raw "type"))
      || match get_optional raw "type" with
         | Str _ => true
         | _ => false
         end
  end.

Definition expected_shape (data : js_value) : bool :=
  match response_entities data with
  | Some items => forallb typed_item items
  | None => false
  end.

Definition nullish (v : js_value) : bool :=
  match v with
  | Undefined => true
  | Null => true
  | _ => false
  end.

(** [entities.find(predicate)] with a predicate that may throw. *)
Fixpoint find_entity (predicate : entity -> result bool) (l : list entity)
  : result (option entity) :=
  match l with
  | [] => Ok None
  | e :: l' =>
      (let* hit := predicate e in
       if hit then Ok (Some e) else find_entity predicate l')%js
  end.

(** [span.toLowerCase().includes(e.value.toLowerCase())] *)
Definition mentions (span : string) (e : entity) : result bool :=
  match entity_value e with
  | Str s => Ok (includes (toLowerCase span) (toLowerCase s))
  | Undefined => Throw (TypeError "Cannot read properties of undefined (reading 'toLowerCase')")
  | Null => Throw (TypeError "Cannot read properties of null (reading 'toLowerCase')")
  | _ => Throw (TypeError "e.value.toLowerCase is not a function")
  end.

(** The text a normalized type contributes to a template literal. *)
Definition type_text (type : js_value) : string :=
  match type with
  | Str s => s
  | Builtin text => text
  | _ => ""
  end.

Definition extractFactsViaLLM (text : string) (entities : list entity)
  : result (list fact) :=
  (let* likes :=
     match regex_match love_regex text with
     | Some loveMatch =>
         let span := trim (group loveMatch 1) in
         let* matchingEntity := find_entity (mentions span) entities in
         match matchingEntity with
         | Some e => Ok [{| key := "likes_" ++ type_text (entity_type e);
                            value := entity_value e;
                            confidence := 0.85%float |}]
         | None => Ok []
         end
     | None => Ok []
     end in
   let* home :=
     match regex_match from_regex text with
     | Some fromMatch =>
         let location := trim (group fromMatch 1) in
         let* locationEntity :=
           find_entity
             (fun e => if is_string (entity_type e) "place" then mentions location e
                       else Ok false)
             entities in
         match locationEntity with
         | Some e => Ok [{| key := "home_location";
                            value := entity_value e;
                            confidence := 0.9%float |}]
         | None => Ok []
         end
     | None => Ok []
     end in
   Ok (likes ++ home))%js.

(** [new Map(...)] keeps a key at the place of its first insertion and gives
    it the value of its last one. *)
Fixpoint map_set (k : string) (f : fact) (m : list (string * fact)) : list (string * fact) :=
  match m with
  | [] => [(k, f)]
  | (k', f') :: m' =>
      if String.eqb k' k then (k, f) :: m' else (k', f') :: map_set k f m'
  end.

(** The entries of the map after the facts are set on [m] in order. *)
Definition collect (m : list (string * fact)) (allFacts : list fact) : list (string * fact) :=
  fold_left (fun m f => map_set (key f) f m) allFacts m.

(** [Array.from(new Map(allFacts.map(f => [f.key, f])).values())] *)
Definition uniqueFacts (allFacts : list fact) : list fact :=
  map snd (collect [] allFacts).

Definition has_key (k : string) (f : fact) : bool :=
  String.eqb (key f) k.

(** The fact a key ends up with: the last one of the sequence. *)
Definition last_with_key (k : string) (allFacts : list fact) : option fact :=
  find (has_key k) (rev allFacts).

(** Every entry of the map is filed under the key of its fact. *)
Definition keyed (m : list (string * fact)) : Prop :=
  Forall (fun entry => key (snd entry) = fst entry) m.

(** The [try] block of [extract]. *)
Definition extract_full (text : string) (sessionId : js_value) (env : extract_env)
  : result extraction :=
  (let quickFacts := extractQuickFacts text in
   let* entities := extractEntitiesViaPhi4 env in
   let* llmFacts := extractFactsViaLLM text entities in
   let allFacts := quickFacts ++ llmFacts in
   Ok {| facts := uniqueFacts allFacts;
         entities := entities;
         sessionId := sessionId;
         extractedAt := now env;
         method := "phi4_llm" |})%js.

(** [extract(text, sessionId)], for a string [text]. *)
Definition extract (text : string) (sessionId : js_value) (env : extract_env)
  : result extraction :=
  match extract_full text sessionId env with
  | Ok r => Ok r
  | Throw _ =>
      let quickFacts := extractQuickFacts text in
      Ok {| facts := quickFacts;
            entities := [];
            sessionId := sessionId;
            extractedAt := now env;
            method := "fallback" |}
  end.

End Extractor.

(** ** Entity store ([src/handlers/contextHandler.cjs]) *)

Module EntityStore.

(** A row of [session_entities]. Timestamps are readings of the database
    clock ([CURRENT_TIMESTAMP]), in microseconds. *)
Record entity_row : Type := {
  id : string;
  session_id : string;
  entity_type : string;
  entity_value : string;
  first_mentioned_at : Z;
  last_mentioned_at : Z;
  mention_count : Z;
  metadata : string
}.

(** The table: [id] is its primary key. [addEntity] is the only code of the
    service that writes to it. *)
Definition table : Type := list entity_row.

(** What the outside world contributes to one call of [addEntity]: whether
    the database fails the [SELECT] or the write (an I/O error, say, or an
    overflow of the INTEGER column), its clock, the clock of the process
    ([Date.now()], in milliseconds) and the text of
    [crypto.randomBytes(4).toString('hex')]. *)
Record store_env : Type := {
  select_error : option js_error;
  write_error : option js_error;
  current_timestamp : Z;
  date_now : Z;
  random_hex : string
}.

(** What a resolved call returns: on the insert path
    [{ id, sessionId, entity_type, entity_value, mention_count: 1, metadata }],
    on the update path [{ ...existing, mention_count, last_mentioned_at }],
    the latter a reading of the clock of the process. *)
Inductive stored : Type :=
| Inserted (id sessionId entity_type entity_value : string) (mention_count : Z)
    (metadata : string)
| Updated (existing : entity_row) (mention_count : Z) (last_mentioned_at : Z).

Definition same_entity (sessionId entityType entityValue : string) (r : entity_row) : bool :=
  String.eqb (session_id r) sessionId
  && String.eqb (entity_type r) entityType
  && String.eqb (entity_value r) entityValue.

(** [SELECT * FROM session_entities WHERE session_id = ? AND entity_type = ?
    AND entity_value = ?], read with [db.get]: the first row, if any. *)
Definition select_entity (db : table) (sessionId entityType entityValue : string)
  : option entity_row :=
  find (same_entity sessionId entityType entityValue) db.

Definition mention (timestamp : Z) (r : entity_row) : entity_row :=
  {| id := id r;
     session_id := session_id r;
     entity_type := entity_type r;
     entity_value := entity_value r;
     first_mentioned_at := first_mentioned_at r;
     last_mentioned_at := timestamp;
     mention_count := mention_count r + 1;
     metadata := metadata r |}.

(** [UPDATE session_entities SET mention_count = mention_count + 1,
    last_mentioned_at = CURRENT_TIMESTAMP WHERE id = ?] *)
Definition update_mention (db : table) (row_id : string) (timestamp : Z) : table :=
  map (fun r => if String.eqb (id r) row_id then mention timestamp r else r) db.

Definition has_id (db : table) (row_id : string) : bool :=
  existsb (fun r => String.eqb (id r) row_id) db.

(** [INSERT INTO session_entities (...) VALUES (?, ?, ?, ?, ?,
    CURRENT_TIMESTAMP, CURRENT_TIMESTAMP, 1)]: refused when the primary key
    is taken. *)
Definition insert_entity (db : table) (row : entity_row) : result table :=
  if has_id db (id row) then
    Throw (Error "Constraint Error: Duplicate key violates primary key constraint")
  else Ok (db ++ [row]).

Definition decimal (n : Z) : string :=
  NilZero.string_of_int (Z.to_int n).

(** [`ent_${Date.now()}_${crypto.randomBytes(4).toString('hex')}`] *)
Definition new_id (env : store_env) : string :=
  "ent_" ++ decimal (date_now env) ++ "_" ++ random_hex env.

(** [addEntity(sessionId, entityType, entityValue, metadata)]: the table
    after the call and what the promise settles to. [metadataStr] is the
    text [JSON.stringify(metadata)] gives. *)
Definition addEntity (db : table) (sessionId entityType entityValue metadataStr : string)
  (env : store_env) : table * result stored :=
  match select_error env with
  | Some err => (db, Throw err)
  | None =>
      match select_entity db sessionId entityType entityValue with
      | Some existing =>
          match write_error env with
          | Some err => (db, Throw err)
          | None =>
              (update_mention db (id existing) (current_timestamp env),
               Ok (Updated existing (mention_count existing + 1) (date_now env)))
          end
      | None =>
          let row_id := new_id env in
          match write_error env with
          | Some err => (db, Throw err)
          | None =>
              match insert_entity db
                      {| id := row_id;
                         session_id := sessionId;
                         entity_type := entityType;
                         entity_value := entityValue;
                         first_mentioned_at := current_timestamp env;
                         last_mentioned_at := current_timestamp env;
                         mention_count := 1;
                         metadata := metadataStr |} with
              | Ok db' =>
                  (db', Ok (Inserted row_id sessionId entityType entityValue 1 metadataStr))
              | Throw err => (db, Throw err)
              end
          end
      end
  end.

(** One call of [addEntity] with its arguments and its environment. *)
Record call : Type := {
  call_sessionId : string;
  call_entityType : string;
  call_entityValue : string;
  call_metadata : string;
  call_env : store_env
}.

Definition perform (db : table) (c : call) : table * result stored :=
  addEntity db (call_sessionId c) (call_entityType c) (call_entityValue c)
    (call_metadata c) (call_env c).

(** Calls made one after the other, each awaited before the next. *)
Definition run (db : table) (calls : list call) : table :=
  fold_left (fun db c => fst (perform db c)) calls db.

Definition resolved {A : Type} (r : result A) : bool :=
  match r with
  | Ok _ => true
  | Throw _ => false
  end.

Definition call_for (sessionId entityType entityValue : string) (c : call) : bool :=
  String.eqb (call_sessionId c) sessionId
  && String.eqb (call_entityType c) entityType
  && String.eqb (call_entityValue c) entityValue.

(** The database timestamps of the calls of a sequence that are for the
    given entity and resolve, in order. *)
Fixpoint mentions (sessionId entityType entityValue : string) (db : table)
  (calls : list call) : list Z :=
  match calls with
  | [] => []
  | c :: calls' =>
      let '(db', r) := perform db c in
      (if call_for sessionId entityType entityValue c && resolved r
       then [current_timestamp (call_env c)] else [])
      ++ mentions sessionId entityType entityValue db' calls'
  end.

End EntityStore.

(** ** Reading the result of a search *)

Module SearchResult.

Import Search.

Section WithNumbers.

Context {num : Type} {N : JsNumber num}.

(** [x] may stand before [y] in an array sorted with the comparator
    [(a, b) => b.similarity - a.similarity]: the comparator does not send
    [x] after [y]. *)
Definition may_precede (x y : scored_message num) : Prop :=
  num_gt (num_sub (similarity y) (similarity x)) num_zero = false.

(** The filter of the semantic part. *)
Definition passes (minSimilarity : num) (msg : scored_message num) : bool :=
  num_ge (similarity msg) minSimilarity.

Definition stores_vector (row : message_row num) : bool :=
  match msg_embedding row with
  | EmbeddingVector _ => true
  | _ => false
  end.

Definition message_id (m : found_message num) : string :=
  sm_id (found m).

Definition is_semantic (m : found_message num) : bool :=
  String.eqb (reason m) "semantic".

End WithNumbers.

(** A strictly positive value of the specification of binary64. *)
Definition sf_positive (f : spec_float) : bool :=
  SFltb (S754_zero false) f.

End SearchResult.

(** ** What a pattern matches *)

Module Patterns.

(** [class_run class s rest]: [s] is a non-empty run of characters of the
    class followed by [rest]. *)
Inductive class_run (class : ascii -> bool) : string -> string -> Prop :=
| run_one (c : ascii) (rest : string) :
    class c = true -> class_run class (String c rest) rest
| run_more (c : ascii) (s rest : string) :
    class c = true -> class_run class s rest -> class_run class (String c s) rest.

(** [matches r s rest captures]: the pattern [r] matches the part of [s]
    that ends where [rest] begins, and its groups capture [captures]. *)
Inductive matches : regex -> string -> string -> list string -> Prop :=
| matches_literal (t s rest : string) :
    after_literal t s = Some rest -> matches (Lit t) s rest []
| matches_left (r1 r2 : regex) (s rest : string) (captures : list string) :
    matches r1 s rest captures -> matches (Alt r1 r2) s rest captures
| matches_right (r1 r2 : regex) (s rest : string) (captures : list string) :
    matches r2 s rest captures -> matches (Alt r1 r2) s rest captures
| matches_sequence (r1 r2 : regex) (s middle rest : string) (c1 c2 : list string) :
    matches r1 s middle c1 -> matches r2 middle rest c2 ->
    matches (Seq r1 r2) s rest (c1 ++ c2)
| matches_plus (class : ascii -> bool) (s rest : string) :
    class_run class s rest -> matches (Plus class) s rest []
| matches_plus_lazy (class : ascii -> bool) (s rest : string) :
    class_run class s rest -> matches (PlusLazy class) s rest []
| matches_group (r : regex) (s rest : string) (captures : list string) :
    matches r s rest captures ->
    matches (Group r) s rest (captures ++ [consumed s rest])
| matches_end : matches EndOfInput "" "" [].

(** All characters of a string are of a class. *)
Fixpoint all_of (class : ascii -> bool) (s : string) : bool :=
  match s with
  | EmptyString => true
  | String c s' => class c && all_of class s'
  end.

(** A non-empty string of [\w] characters. *)
Definition word (w : string) : Prop :=
  w <> "" /\ all_of is_word w = true.

End Patterns.

(** ** What the extractor's facts look like *)

Module ExtractedFacts.

Import Extractor Patterns.

(** A fact of the first quick pattern: the key names a word of the text,
    the value is a trimmed run of word and space characters of the text. *)
Definition favorite_fact (text : string) (f : fact) : Prop :=
  exists w v,
    word w /\ includes text w = true
    /\ key f = ("favorite_" ++ w)%string
    /\ value f = Str v /\ trim v = v
    /\ all_of is_word_or_space v = true /\ includes text v = true
    /\ confidence f = 0.9%float.

(** A fact of the second quick pattern: the value is a word of the text. *)
Definition name_fact (text : string) (f : fact) : Prop :=
  exists w,
    word w /\ includes text w = true
    /\ key f = "user_name" /\ value f = Str w
    /\ confidence f = 0.95%float.

(** A fact derived from the entity [e], whose value is the string [s]: the
    fact carries that value, and the text mentions it, case apart. *)
Definition quotes (text : string) (e : entity) (f : fact) : Prop :=
  exists s,
    entity_value e = Str s /\ value f = Str s
    /\ includes (toLowerCase text) (toLowerCase s) = true.

Definition likes_fact (text : string) (entities : list entity) (f : fact) : Prop :=
  exists e,
    In e entities /\ quotes text e f
    /\ key f = ("likes_" ++ type_text (entity_type e))%string
    /\ confidence f = 0.85%float.

Definition home_fact (text : string) (entities : list entity) (f : fact) : Prop :=
  exists e,
    In e entities /\ quotes text e f
    /\ entity_type e = Str "place"
    /\ key f = "home_location"
    /\ confidence f = 0.9%float.

(** The value of an entity is a string. *)
Definition has_text (e : entity) : bool :=
  match entity_value e with
  | Str _ => true
  | _ => false
  end.

End ExtractedFacts.

(** ** Listing entities ([getEntities]) and the two entity routes
    ([src/routes/contextRoutes.cjs]) *)

Module EntityList.

Import EntityStore.

Local Open Scope Z_scope.

(** [ORDER BY mention_count DESC, last_mentioned_at DESC]: the row [x] may
    come before the row [y]. *)
Definition ranks_before (x y : entity_row) : bool :=
  (mention_count y <? mention_count x)
  || ((mention_count x =? mention_count y)
      && (last_mentioned_at y <=? last_mentioned_at x)).

Fixpoint order_insert (x : entity_row) (l : list entity_row) : list entity_row :=
  match l with
  | [] => [x]
  | y :: l' => if ranks_before x y then x :: l else y :: order_insert x l'
  end.

(** The rows in the order of the [ORDER BY] clause. Rows that tie on both
    columns come in the order of the table; SQL leaves their order open,
    and nothing below depends on it. *)
Definition order_by (l : list entity_row) : list entity_row :=
  fold_right order_insert [] l.

(** The [WHERE] clause [getEntities] builds: [AND entity_type = ?] is added
    only for a truthy [entityType]. *)
Definition selected (sessionId : string) (entityType : option string) (r : entity_row)
  : bool :=
  String.eqb (session_id r) sessionId
  && (if Search.missing entityType then true
      else String.eqb (entity_type r) (Search.with_default "" entityType)).

(** [getEntities(sessionId, entityType = null)] for a string [sessionId]
    and an [entityType] that is a string or absent; [query_error] is the
    error the database fails the query with, if it does. *)
Definition getEntities (db : table) (sessionId : string) (entityType : option string)
  (query_error : option js_error) : result (list entity_row) :=
  match query_error with
  | Some err => Throw err
  | None => Ok (order_by (filter (selected sessionId entityType) db))
  end.

(** What identifies an entity: its session, its type and its value. *)
Definition entity_key (r : entity_row) : string * string * string :=
  (session_id r, entity_type r, entity_value r).

(** The table holds at most one row for an entity. *)
Definition one_row_each (db : table) : Prop :=
  NoDup (map entity_key db).

(** The [id] and the [mention_count] of the object [addEntity] resolves
    with. *)
Definition returned_id (st : stored) : string :=
  match st with
  | Inserted row_id _ _ _ _ _ => row_id
  | Updated existing _ _ => id existing
  end.

Definition returned_count (st : stored) : Z :=
  match st with
  | Inserted _ _ _ _ count _ => count
  | Updated _ count _ => count
  end.

(** What a route answers: [res.json] with status "ok" and the data, or
    [res.status(...).json] with status "error", a code and a message. *)
Inductive reply (A : Type) : Type :=
| Answer (data : A)
| Refusal (http_status : Z) (code message : string).

Arguments Answer {A} data.
Arguments Refusal {A} http_status code message.

(** The payload of [entity.add] and of [entity.list], for fields that are
    strings or absent; [add_metadata] is the text [JSON.stringify] gives
    for a truthy [metadata]. *)
Record add_payload : Type := {
  add_sessionId : option string;
  add_entityType : option string;
  add_entityValue : option string;
  add_metadata : option string
}.

Record list_payload : Type := {
  list_sessionId : option string;
  list_entityType : option string
}.

(** [router.post('/entity.add', ...)] *)
Definition entity_add (db : table) (payload : add_payload) (env : store_env)
  : table * reply stored :=
  if Search.missing (add_sessionId payload)
     || Search.missing (add_entityType payload)
     || Search.missing (add_entityValue payload)
  then
    (db, Refusal 400 "INVALID_PARAMS"
           "Missing required parameters: sessionId, entityType, entityValue")
  else
    match addEntity db
            (Search.with_default "" (add_sessionId payload))
            (Search.with_default "" (add_entityType payload))
            (Search.with_default "" (add_entityValue payload))
            (Search.with_default "{}" (add_metadata payload))
            env with
    | (db', Ok result) => (db', Answer result)
    | (db', Throw error) => (db', Refusal 500 "ENTITY_ADD_FAILED" (message_of error))
    end.

(** [router.post('/entity.list', ...)]: the data are the entities and their
    number. *)
Definition entity_list (db : table) (payload : list_payload)
  (query_error : option js_error) : reply (list entity_row * nat) :=
  if Search.missing (list_sessionId payload) then
    Refusal 400 "INVALID_PARAMS" "Missing required parameter: sessionId"
  else
    match getEntities db (Search.with_default "" (list_sessionId payload))
            (list_entityType payload) query_error with
    | Ok entities => Answer (entities, length entities)
    | Throw error => Refusal 500 "ENTITY_LIST_FAILED" (message_of error)
    end.

(** The rows before which [x] may come. *)
Definition ranked (x y : entity_row) : Prop :=
  ranks_before x y = true.

End EntityList.

(** * Example data *)

Module SearchExamples.

Import Search.

Definition row (i : string) (e : embedding_column float) : message_row float :=
  {| msg_id := i;
     msg_session_id := "session_1";
     msg_content := "hello";
     msg_role := "user";
     msg_created_at := "2025-10-22T17:00:00Z";
     msg_metadata := MetadataJson "{}";
     msg_embedding := e |}.

Definition request (l : option Z) (m : option float) (ir : option Z)
  : search_payload float :=
  {| sessionId := Some "session_1";
     query := Some "pizza";
     limit := l;
     minSimilarity := m;
     includeRecent := ir |}.

(** The query embeds to [[1]]; the session holds [rows], newest first. *)
Definition world (rows : list (message_row float)) : search_env float :=
  {| phi4_embedding := Ok [1%float];
     db_messages := Ok rows |}.

Definition summary (r : search_result float) : list (string * bool * string) :=
  map (fun m => (sm_id (found m), hasEmbedding (found m), reason m)) (messages r).

Definition scored (i : string) (sim : float) : scored_message float :=
  {| sm_id := i;
     sm_sessionId := "session_1";
     sm_text := "hello";
     sm_sender := "user";
     sm_timestamp := "2025-10-22T17:00:00Z";
     sm_metadata := "{}";
     similarity := sim;
     hasEmbedding := true |}.

Definition five_rows : list (message_row float) :=
  [ row "m5" EmbeddingNull;
    row "m4" EmbeddingUnparsable;
    row "m3" (EmbeddingVector [1%float]);
    row "m2" EmbeddingNull;
    row "m1" (EmbeddingVector [2%float]) ].

End SearchExamples.

Module ExtractorExamples.

Definition response (items : list js_value) : result js_value :=
  Ok (Object [("status", Str "ok"); ("data", Object [("entities", Array items)])]).

Definition item (type text : string) (confidence : js_value) : js_value :=
  Object [("type", Str type); ("text", Str text); ("confidence", confidence)].

Definition world (answer : result js_value) : Extractor.extract_env :=
  {| Extractor.phi4_response := answer;
     Extractor.now := "2025-10-22T17:00:00.000Z" |}.

Definition timeout : result js_value :=
  Throw (Error "timeout of 5000ms exceeded").

Definition three_items : list js_value :=
  [ item "PERSON" "Bob" (Number 0%float);
    Object [("type", Str "GPE"); ("text", Str "Paris")];
    item "WIDGET" "pizza" (Number 0.3%float) ].

Definition fact_a1 : Extractor.fact :=
  {| Extractor.key := "a"; Extractor.value := Str "first"; Extractor.confidence := 0.9%float |}.

Definition fact_b : Extractor.fact :=
  {| Extractor.key := "b"; Extractor.value := Str "other"; Extractor.confidence := 0.95%float |}.

Definition fact_a2 : Extractor.fact :=
  {| Extractor.key := "a"; Extractor.value := Str "second"; Extractor.confidence := 0.85%float |}.

End ExtractorExamples.

Module EntityStoreExamples.

Import EntityStore.

Definition world (failing : bool) (timestamp now : Z) (hex : string) : store_env :=
  {| select_error := if failing then Some (Error "IO Error") else None;
     write_error := None;
     current_timestamp := timestamp;
     date_now := now;
     random_hex := hex |}.

Definition mention_of (value : string) (env : store_env) : call :=
  {| call_sessionId := "session_1";
     call_entityType := "person";
     call_entityValue := value;
     call_metadata := "{}";
     call_env := env |}.

(** Bob, Amy, Bob again, a call for Bob the database fails, and Bob once
    more. *)
Definition five_calls : list call :=
  [ mention_of "Bob" (world false 10 1761152400000 "0a1b2c3d");
    mention_of "Amy" (world false 11 1761152400001 "4e5f6a7b");
    mention_of "Bob" (world false 12 1761152400002 "8c9d0e1f");
    mention_of "Bob" (world true 13 1761152400003 "2a3b4c5d");
    mention_of "Bob" (world false 14 1761152400004 "6e7f8a9b") ].

End EntityStoreExamples.

(** * Properties *)

Unset Implicit Arguments.

(** ** The similarity ranker *)

Section SimilarityFacts.

Import Search.

Context {num : Type} {N : JsNumber num}.

(** The loop of [cosineSimilarity] computes three independent sums. *)
Lemma fold_accumulate (a : list num) :
  forall (b : list num) (d x y : num),
    length a = length b ->
    fold_left accumulate (combine a b) (d, x, y)
    = (dot_product_from d a b, sum_of_squares_from x a, sum_of_squares_from y b).
Proof.
  induction a as [|a0 a IH]; intros [|b0 b] d x y Hlen; simpl in Hlen; try discriminate.
  - reflexivity.
  - injection Hlen as Hlen. simpl.
    unfold dot_product_from, sum_of_squares_from. simpl.
    rewrite (IH b _ _ _ Hlen). reflexivity.
Qed.


(** What [cosineSimilarity] returns when the lengths agree. *)
Lemma cosineSimilarity_equal_lengths (a b : list num) :
  length a = length b ->
  cosineSimilarity a b
  = if num_eq (magnitude a) num_zero || num_eq (magnitude b) num_zero
    then Ok num_zero
    else Ok (num_div (dot_product_from num_zero a b)
               (num_mul (magnitude a) (magnitude b))).
Proof.
  intro Hlen. unfold cosineSimilarity.
  rewrite Hlen, Nat.eqb_refl. simpl negb. cbv iota.
  rewrite (fold_accumulate a b _ _ _ Hlen). reflexivity.
Qed.

Lemma cosineSimilarity_different_lengths (a b : list num) :
  length a <> length b ->
  cosineSimilarity a b = Throw (Error "Vectors must have the same length").
Proof.
  intro Hlen. unfold cosineSimilarity.
  apply Nat.eqb_neq in Hlen. rewrite Hlen. reflexivity.
Qed.


(** C7. [cosineSimilarity a b] throws, and throws its length error, exactly
    when the two vectors differ in length; when they agree in length and the
    magnitude computed for either is zero, it returns 0. *)
Theorem cosineSimilarity_throws_iff_lengths_differ (a b : list num) :
  (raises (cosineSimilarity a b) <-> length a <> length b)
  /\ (cosineSimilarity a b = Throw (Error "Vectors must have the same length")
      <-> length a <> length b)
  /\ (length a = length b ->
      num_eq (magnitude a) num_zero = true \/ num_eq (magnitude b) num_zero = true ->
      cosineSimilarity a b = Ok num_zero).
Proof.
  assert (Hsame : length a = length b -> exists x, cosineSimilarity a b = Ok x).
  { intro Hlen. rewrite (cosineSimilarity_equal_lengths a b Hlen).
    destruct (num_eq (magnitude a) num_zero || num_eq (magnitude b) num_zero); eauto. }
  repeat split.
  - intros [e He] Hlen. destruct (Hsame Hlen) as [x Hx]. congruence.
  - intro Hlen. eexists. apply cosineSimilarity_different_lengths, Hlen.
  - intros He Hlen. destruct (Hsame Hlen) as [x Hx]. congruence.
  - apply cosineSimilarity_different_lengths.
  - intros Hlen Hzero. rewrite (cosineSimilarity_equal_lengths a b Hlen).
    destruct Hzero as [-> | ->]; [reflexivity | rewrite orb_true_r; reflexivity].
Qed.

End SimilarityFacts.

(** *** Binary64 arithmetic *)

Section FloatSimilarity.

Import Search.

(** The two zeros of binary64. *)
Lemma is_zero_cases (x : float) :
  is_zero x = true -> x = 0%float \/ x = (-0)%float.
Proof.
  unfold is_zero. intro H. rewrite FloatAxioms.eqb_spec in H.
  rewrite <- (SF2Prim_Prim2SF x).
  change (Prim2SF 0%float) with (S754_zero false) in H.
  destruct (Prim2SF x) as [s | s | | s m e]; try (vm_compute in H; discriminate).
  - destruct s; [right | left]; reflexivity.
  - unfold SFeqb, SFcompare in H. destruct s; discriminate.
  - unfold SFeqb, SFcompare in H. destruct s; discriminate.
Qed.

(** The magnitude computed for a vector of zeros is zero. *)
Lemma zero_vector_magnitude (v : list float) :
  Forall (fun x => is_zero x = true) v -> magnitude v = 0%float.
Proof.
  intro Hv. unfold magnitude, sum_of_squares.
  assert (Hsum : sum_of_squares_from 0%float v = 0%float).
  { induction Hv as [|x v Hx _ IH]; [reflexivity |].
    unfold sum_of_squares_from in *. simpl.
    destruct (is_zero_cases x Hx) as [-> | ->]; exact IH. }
  simpl num_zero. rewrite Hsum. reflexivity.
Qed.

(** A vector of zeros scores 0 against any vector of its length. *)
Lemma cosineSimilarity_zero_vector (a b : list float) :
  length a = length b ->
  Forall (fun x => is_zero x = true) a \/ Forall (fun x => is_zero x = true) b ->
  cosineSimilarity a b = Ok 0%float.
Proof.
  intros Hlen Hzero. rewrite (cosineSimilarity_equal_lengths a b Hlen).
  destruct Hzero as [Ha | Hb].
  - rewrite (zero_vector_magnitude a Ha). reflexivity.
  - rewrite (zero_vector_magnitude b Hb). simpl num_eq. simpl num_zero.
    change (PrimFloat.eqb 0%float 0%float) with true.
    rewrite orb_true_r. reflexivity.
Qed.

End FloatSimilarity.

Lemma cosineSimilarity_zero_vector_witness :
  Search.cosineSimilarity [0; -0; 0]%float [1; 2; 3]%float = Ok 0%float.
Proof.
  apply cosineSimilarity_zero_vector.
  - reflexivity.
  - left. repeat constructor.
Defined.

(** On the numbers of the program: two vectors of different lengths, and a
    zero vector against a vector of the same length. *)
Lemma cosineSimilarity_throws_iff_lengths_differ_witness :
  Search.cosineSimilarity [1; 2]%float [1; 2; 3]%float
  = Throw (Error "Vectors must have the same length")
  /\ Search.cosineSimilarity [0; 0]%float [3; 4]%float = Ok 0%float.
Proof.
  split.
  - apply (cosineSimilarity_throws_iff_lengths_differ [1; 2]%float [1; 2; 3]%float).
    simpl. lia.
  - exact (proj2 (proj2 (cosineSimilarity_throws_iff_lengths_differ
                            [0; 0]%float [3; 4]%float))
             eq_refl (or_introl eq_refl)).
Defined.

(** *** Exact arithmetic *)

Section ExactSimilarity.

Import Search.

Local Open Scope R_scope.




End ExactSimilarity.



(** ** Arrays *)

Section ArrayFacts.

Context {A B : Type}.

Lemma array_map_ok (f : A -> result B) (l : list A) :
  forall l', array_map f l = Ok l' -> Forall2 (fun x y => f x = Ok y) l l'.
Proof.
  induction l as [|x l IH]; simpl; intros l' H.
  - injection H as <-. constructor.
  - destruct (f x) as [y|e] eqn:Hx; simpl in H; [|discriminate].
    destruct (array_map f l) as [ys|e] eqn:Hl; simpl in H; [|discriminate].
    injection H as <-. constructor; auto.
Qed.

Lemma array_map_total (f : A -> result B) (l : list A) :
  Forall (fun x => exists y, f x = Ok y) l -> exists l', array_map f l = Ok l'.
Proof.
  induction 1 as [|x l [y Hy] _ [l' Hl']]; simpl.
  - eauto.
  - rewrite Hy, Hl'. simpl. eauto.
Qed.

Lemma array_map_throws (f : A -> result B) (l : list A) (x : A) (e : js_error) :
  In x l -> f x = Throw e -> raises (array_map f l).
Proof.
  induction l as [|a l IH]; simpl; intros Hin Hx.
  - contradiction.
  - destruct (f a) as [y|e'] eqn:Ha; simpl.
    + destruct Hin as [-> | Hin]; [congruence |].
      destruct (IH Hin Hx) as [e'' ->]. simpl. eexists; reflexivity.
    + eexists; reflexivity.
Qed.

(** When the callback can only throw [e], the map throws [e] or returns. *)
Lemma array_map_throws_only (f : A -> result B) (e : js_error) (l : list A) :
  Forall (fun x => forall e', f x = Throw e' -> e' = e) l ->
  forall e', array_map f l = Throw e' -> e' = e.
Proof.
  induction 1 as [|x l Hx _ IH]; simpl; intros e' H.
  - discriminate.
  - destruct (f x) as [y|e1] eqn:Hfx; simpl in H.
    + destruct (array_map f l) as [ys|e2]; simpl in H; [discriminate |].
      injection H as <-. apply IH. reflexivity.
    + injection H as <-. apply Hx. reflexivity.
Qed.

Lemma relative_index_range (len k : Z) :
  (0 <= len -> 0 <= relative_index len k <= len)%Z.
Proof.
  unfold relative_index. destruct (k <? 0)%Z eqn:Hk; lia.
Qed.

Lemma slice_from_start (l : list A) (stop : Z) :
  slice l 0 stop
  = firstn (Z.to_nat (relative_index (Z.of_nat (length l)) stop)) l.
Proof.
  unfold slice. replace (relative_index (Z.of_nat (length l)) 0) with 0%Z.
  - simpl. f_equal. lia.
  - unfold relative_index. simpl. lia.
Qed.



Lemma in_firstn (n : nat) (l : list A) (x : A) :
  In x (firstn n l) -> In x l.
Proof.
  intro H. rewrite <- (firstn_skipn n l). apply in_or_app. left. exact H.
Qed.

Lemma in_skipn (n : nat) (l : list A) (x : A) :
  In x (skipn n l) -> In x l.
Proof.
  intro H. rewrite <- (firstn_skipn n l). apply in_or_app. right. exact H.
Qed.

Lemma slice_incl (l : list A) (start stop : Z) (x : A) :
  In x (slice l start stop) -> In x l.
Proof.
  unfold slice. intro H.
  eapply in_skipn, in_firstn, H.
Qed.

Lemma slice_nth_error_from_start (l : list A) (stop : Z) (i : nat) (x : A) :
  nth_error (slice l 0 stop) i = Some x ->
  nth_error l i = Some x /\ ((0 <= stop)%Z -> (Z.of_nat i < stop)%Z).
Proof.
  intro H.
  assert (Hi : (i < length (slice l 0 stop))%nat).
  { apply nth_error_Some. congruence. }
  rewrite slice_from_start in H, Hi.
  split.
  - rewrite nth_error_firstn in H.
    destruct (i <? _)%nat; [exact H | discriminate].
  - intro Hstop. rewrite length_firstn in Hi.
    unfold relative_index in Hi. destruct (stop <? 0)%Z eqn:E; lia.
Qed.

End ArrayFacts.

(** ** The semantic retriever *)

Section SearchFacts.

Import Search.

Context {num : Type} {N : JsNumber num}.

Lemma slice_nil {A : Type} (start stop : Z) : slice (@nil A) start stop = [].
Proof.
  unfold slice. rewrite skipn_nil, firstn_nil. reflexivity.
Qed.

Lemma combinedMessages_nil (l : Z) (m : num) (ir : Z) :
  combinedMessages [] l m ir = [].
Proof.
  unfold combinedMessages, recentMessages, semanticMatches, slice_from.
  rewrite !slice_nil. simpl. rewrite slice_nil. reflexivity.
Qed.

(** A call that returns has passed validation, embedded the query, read the
    rows and scored every one of them; its messages are the combination of
    the recent and the semantic part. *)
Lemma searchMessages_returns (payload : search_payload num) (env : search_env num)
  (r : search_result num) :
  searchMessages payload env = Ok r ->
  exists q rows scoredMessages,
    phi4_embedding env = Ok q
    /\ db_messages env = Ok rows
    /\ array_map (scoreMessage q) rows = Ok scoredMessages
    /\ messages r
       = combinedMessages scoredMessages (limit_of payload)
           (minSimilarity_of payload) (includeRecent_of payload)
    /\ count r = length (messages r)
    /\ missing (sessionId payload) = false
    /\ missing (query payload) = false.
Proof.
  unfold searchMessages, generateEmbedding.
  destruct (missing (sessionId payload)); [discriminate |].
  destruct (missing (query payload)); [discriminate |]. simpl orb. cbv iota.
  destruct (phi4_embedding env) as [q|e]; simpl; [|discriminate].
  destruct (db_messages env) as [rows|e]; simpl; [|discriminate].
  destruct rows as [|row rows].
  - simpl. intro H. injection H as <-.
    exists q, [], []. simpl. rewrite combinedMessages_nil. auto 10.
  - cbn [length Nat.eqb].
    destruct (array_map (scoreMessage q) (row :: rows)) as [scored|e] eqn:Hs;
      simpl; [|discriminate].
    intro H. injection H as <-.
    exists q, (row :: rows), scored. simpl. auto 10.
Qed.


Lemma scoreMessage_without_embedding (q : list num) (row : message_row num)
  (sm : scored_message num) :
  scoreMessage q row = Ok sm ->
  (hasEmbedding sm = false <-> parse_embedding row = None)
  /\ (hasEmbedding sm = false -> similarity sm = num_zero)
  /\ sm_id sm = msg_id row.
Proof.
  unfold scoreMessage.
  destruct (parse_embedding row) as [v|] eqn:Hp.
  - destruct (cosineSimilarity q v) as [x|e]; simpl; [|discriminate].
    destruct (parse_metadata row) as [md|e]; simpl; [|discriminate].
    intro H. injection H as <-. simpl.
    repeat split; intros; congruence.
  - simpl. destruct (parse_metadata row) as [md|e]; simpl; [|discriminate].
    intro H. injection H as <-. simpl.
    repeat split; intros; congruence.
Qed.

Lemma sort_insert_permutation {A : Type} (compare : A -> A -> num) (x : A) (l : list A) :
  Permutation (sort_insert compare x l) (x :: l).
Proof.
  induction l as [|y l IH]; simpl.
  - reflexivity.
  - destruct (num_gt (compare x y) num_zero).
    + rewrite IH. apply perm_swap.
    + reflexivity.
Qed.

Lemma sort_permutation {A : Type} (compare : A -> A -> num) (l : list A) :
  Permutation (sort compare l) l.
Proof.
  induction l as [|x l IH]; simpl.
  - reflexivity.
  - rewrite sort_insert_permutation. constructor. exact IH.
Qed.

(** Every semantic match lies beyond no threshold: it passed the filter. *)
Lemma semanticMatches_pass_filter (scoredMessages : list (scored_message num))
  (l : Z) (m : num) (ir : Z) (x : scored_message num) :
  In x (semanticMatches scoredMessages l m ir) ->
  In x scoredMessages /\ num_ge (similarity x) m = true.
Proof.
  unfold semanticMatches. intro H.
  apply slice_incl in H.
  apply (Permutation_in _ (sort_permutation _ _)) in H.
  apply filter_In in H. destruct H as [H Hge].
  split; [|exact Hge].
  unfold slice_from in H. eapply slice_incl, H.
Qed.


Lemma Forall2_nth_error_right {A B : Type} (R : A -> B -> Prop) (l : list A) (l' : list B) :
  Forall2 R l l' ->
  forall i y, nth_error l' i = Some y -> exists x, nth_error l i = Some x /\ R x y.
Proof.
  induction 1 as [|x y l l' Hxy _ IH]; intros [|i] z Hz; simpl in *; try discriminate.
  - injection Hz as <-. eauto.
  - apply IH, Hz.
Qed.

Lemma scored_from_row (q : list num) (rows : list (message_row num))
  (scoredMessages : list (scored_message num)) (x : scored_message num) :
  array_map (scoreMessage q) rows = Ok scoredMessages ->
  In x scoredMessages ->
  exists row, In row rows /\ scoreMessage q row = Ok x.
Proof.
  intros Hmap Hin. apply array_map_ok in Hmap.
  apply In_nth_error in Hin. destruct Hin as [i Hi].
  destruct (Forall2_nth_error_right _ _ _ Hmap _ _ Hi) as [row [Hrow Hscore]].
  exists row. split; [eapply nth_error_In, Hrow | exact Hscore].
Qed.

(** With [includeRecent > limit] the last [slice] has a negative end: it
    drops the last [includeRecent - limit] candidates, not all of them. *)
Lemma semanticMatches_beyond_limit (scoredMessages : list (scored_message num))
  (l : Z) (m : num) (ir : Z) :
  (l < ir)%Z ->
  let candidates :=
    sort (fun a b => num_sub (similarity b) (similarity a))
      (filter (fun msg => num_ge (similarity msg) m) (slice_from scoredMessages ir)) in
  semanticMatches scoredMessages l m ir
  = firstn (length candidates - Z.to_nat (ir - l)) candidates.
Proof.
  intros Hlt candidates. unfold semanticMatches. fold candidates.
  rewrite slice_from_start. f_equal.
  unfold relative_index.
  destruct (l - ir <? 0)%Z eqn:E; lia.
Qed.

(** C2, amended. Whenever [0 >= minSimilarity] is false (a positive
    threshold, such as the default 0.5), a message whose row stores no
    embedding, or one that does not parse, is never returned with the reason
    "semantic": it is returned only with the reason "recent", at its own
    place in the recency order, which lies below [includeRecent] when that
    is not negative. *)
Theorem messages_without_embedding_are_only_recent
  (payload : search_payload num) (env : search_env num) (r : search_result num)
  (q : list num) (rows : list (message_row num)) :
  searchMessages payload env = Ok r ->
  phi4_embedding env = Ok q ->
  db_messages env = Ok rows ->
  num_ge num_zero (minSimilarity_of payload) = false ->
  (forall (m : found_message num) (row : message_row num),
      In m (messages r) ->
      scoreMessage q row = Ok (found m) ->
      parse_embedding row = None ->
      reason m = "recent" /\ reason m <> "semantic")
  /\ (forall (i : nat) (m : found_message num),
         nth_error (messages r) i = Some m ->
         hasEmbedding (found m) = false ->
         reason m = "recent"
         /\ ((0 <= includeRecent_of payload)%Z ->
             (Z.of_nat i < includeRecent_of payload)%Z)
         /\ exists row,
             nth_error rows i = Some row
             /\ parse_embedding row = None
             /\ scoreMessage q row = Ok (found m)).
Proof.
  intros Hret Hphi Hdb Hmin.
  destruct (searchMessages_returns _ _ _ Hret)
    as (q' & rows' & scored & Hphi' & Hdb' & Hmap & Hmsgs & _).
  rewrite Hphi in Hphi'. injection Hphi' as <-.
  rewrite Hdb in Hdb'. injection Hdb' as <-.
  assert (Hpos : forall i m,
             nth_error (messages r) i = Some m ->
             hasEmbedding (found m) = false ->
             reason m = "recent"
             /\ ((0 <= includeRecent_of payload)%Z ->
                 (Z.of_nat i < includeRecent_of payload)%Z)
             /\ exists row,
                 nth_error rows i = Some row
                 /\ parse_embedding row = None
                 /\ scoreMessage q row = Ok (found m)).
  { intros i m Hi Hno. rewrite Hmsgs in Hi. unfold combinedMessages in Hi.
    set (recent := recentMessages scored (includeRecent_of payload)) in *.
    destruct (Nat.lt_ge_cases i (length (map (tag "recent") recent))) as [Hlt | Hge].
    - rewrite nth_error_app1 in Hi by exact Hlt.
      rewrite nth_error_map in Hi.
      destruct (nth_error recent i) as [x|] eqn:Hx; [|discriminate].
      injection Hi as <-. simpl in *.
      unfold recent, recentMessages in Hx.
      apply slice_nth_error_from_start in Hx. destruct Hx as [Hx Hbound].
      destruct (Forall2_nth_error_right _ _ _ (array_map_ok _ _ _ Hmap) _ _ Hx)
        as [row [Hrow Hscore]].
      repeat split; [exact Hbound |].
      exists row. repeat split; [exact Hrow | | exact Hscore].
      apply (scoreMessage_without_embedding _ _ _ Hscore). exact Hno.
    - rewrite nth_error_app2 in Hi by exact Hge.
      apply nth_error_In in Hi. apply in_map_iff in Hi.
      destruct Hi as [x [<- Hx]]. simpl in Hno.
      apply semanticMatches_pass_filter in Hx. destruct Hx as [Hin Hpass].
      destruct (scored_from_row _ _ _ _ Hmap Hin) as [row [_ Hscore]].
      apply scoreMessage_without_embedding in Hscore.
      destruct Hscore as (_ & Hzero & _).
      rewrite (Hzero Hno) in Hpass. congruence. }
  split; [|exact Hpos].
  intros m row Hin Hscore Hnone.
  apply In_nth_error in Hin. destruct Hin as [i Hi].
  assert (Hno : hasEmbedding (found m) = false).
  { apply (scoreMessage_without_embedding _ _ _ Hscore). exact Hnone. }
  destruct (Hpos i m Hi Hno) as [Hrecent _].
  split; [exact Hrecent |]. rewrite Hrecent. discriminate.
Qed.


(** C10. Once the query is embedded and the rows are read, a row whose
    stored vector differs in length from the query embedding makes
    [searchMessages] throw; the error is the length error of
    [cosineSimilarity] whenever the request is valid and no row holds
    metadata that fails to parse. *)
Theorem mismatched_embedding_aborts_search
  (payload : search_payload num) (env : search_env num)
  (q : list num) (rows : list (message_row num))
  (row : message_row num) (v : list num) :
  phi4_embedding env = Ok q ->
  db_messages env = Ok rows ->
  In row rows ->
  msg_embedding row = EmbeddingVector v ->
  length v <> length q ->
  raises (searchMessages payload env)
  /\ (missing (sessionId payload) = false ->
      missing (query payload) = false ->
      Forall (fun row' => msg_metadata row' <> MetadataUnparsable) rows ->
      searchMessages payload env = Throw (Error "Vectors must have the same length")).
Proof.
  intros Hphi Hdb Hin Hvec Hlen.
  assert (Hrow : scoreMessage q row = Throw (Error "Vectors must have the same length")).
  { unfold scoreMessage, parse_embedding. rewrite Hvec.
    rewrite cosineSimilarity_different_lengths by congruence. reflexivity. }
  destruct (array_map_throws (scoreMessage q) rows row _ Hin Hrow) as [e He].
  assert (Hrows : (length rows =? 0)%nat = false).
  { destruct rows; [contradiction | reflexivity]. }
  split.
  - unfold searchMessages, generateEmbedding.
    destruct (missing (sessionId payload) || missing (query payload));
      [eexists; reflexivity |].
    rewrite Hphi, Hdb. simpl. rewrite Hrows, He. simpl. eexists; reflexivity.
  - intros Hsid Hquery Hmeta.
    unfold searchMessages, generateEmbedding.
    rewrite Hsid, Hquery, Hphi, Hdb. simpl. rewrite Hrows, He. simpl.
    f_equal.
    apply (array_map_throws_only (scoreMessage q)
             (Error "Vectors must have the same length") rows); [|exact He].
    apply Forall_forall. intros row' Hin' e' He'.
    rewrite Forall_forall in Hmeta. specialize (Hmeta row' Hin').
    unfold scoreMessage in He'.
    destruct (parse_embedding row') as [v'|].
    + unfold cosineSimilarity in He'.
      destruct (negb (length q =? length v')%nat).
      * simpl in He'. congruence.
      * destruct (fold_left accumulate (combine q v') (num_zero, num_zero, num_zero))
          as [[d na] nb].
        destruct (num_eq (num_sqrt na) num_zero || num_eq (num_sqrt nb) num_zero);
          simpl in He';
          unfold parse_metadata in He';
          destruct (msg_metadata row'); simpl in He'; congruence.
    + simpl in He'. unfold parse_metadata in He'.
      destruct (msg_metadata row'); simpl in He'; congruence.
Qed.

End SearchFacts.

Lemma messages_without_embedding_are_only_recent_witness :
  exists r,
    Search.searchMessages (SearchExamples.request None None None)
      (SearchExamples.world SearchExamples.five_rows) = Ok r
    /\ SearchExamples.summary r
       = [("m5", false, "recent"); ("m4", false, "recent"); ("m3", true, "recent");
          ("m1", true, "semantic")]
    /\ forall i m,
        nth_error (Search.messages r) i = Some m ->
        Search.hasEmbedding (Search.found m) = false ->
        Search.reason m = "recent" /\ (Z.of_nat i < 3)%Z.
Proof.
  destruct (Search.searchMessages (SearchExamples.request None None None)
              (SearchExamples.world SearchExamples.five_rows)) as [r|e] eqn:Hret;
    [| vm_compute in Hret; discriminate].
  exists r. split; [reflexivity |].
  destruct (messages_without_embedding_are_only_recent
              (SearchExamples.request None None None)
              (SearchExamples.world SearchExamples.five_rows) r
              [1%float] SearchExamples.five_rows
              Hret eq_refl eq_refl eq_refl) as [_ H].
  split.
  - vm_compute in Hret. injection Hret as <-. reflexivity.
  - intros i m Hi Hno.
    destruct (H i m Hi Hno) as (Hrecent & Hbound & _).
    split; [exact Hrecent | apply Hbound; vm_compute; discriminate].
Defined.

(** C2 as stated fails for [minSimilarity = 0]: the only message of the
    session stores no embedding, scores 0, passes the filter [0 >= 0] and is
    returned with the reason "semantic". *)
Lemma message_without_embedding_returned_as_semantic :
  exists r,
    Search.searchMessages
      (SearchExamples.request None (Some 0%float) (Some 0%Z))
      (SearchExamples.world [SearchExamples.row "m1" Search.EmbeddingNull]) = Ok r
    /\ SearchExamples.summary r = [("m1", false, "semantic")].
Proof.
  eexists. split; vm_compute; reflexivity.
Qed.



Lemma semanticMatches_beyond_limit_witness :
  Search.semanticMatches
    [ SearchExamples.scored "m5" 0.1%float;
      SearchExamples.scored "m4" 0.2%float;
      SearchExamples.scored "m3" 0.9%float;
      SearchExamples.scored "m2" 0.7%float;
      SearchExamples.scored "m1" 0.8%float ]
    1%Z 0.5%float 2%Z
  = [SearchExamples.scored "m3" 0.9%float; SearchExamples.scored "m1" 0.8%float].
Proof.
  rewrite semanticMatches_beyond_limit by lia.
  vm_compute. reflexivity.
Defined.

Lemma mismatched_embedding_aborts_search_witness :
  Search.searchMessages (SearchExamples.request None None None)
    (SearchExamples.world
       [ SearchExamples.row "m2" Search.EmbeddingNull;
         SearchExamples.row "m1" (Search.EmbeddingVector [1%float; 2%float]) ])
  = Throw (Error "Vectors must have the same length").
Proof.
  apply (mismatched_embedding_aborts_search
           (SearchExamples.request None None None)
           (SearchExamples.world
              [ SearchExamples.row "m2" Search.EmbeddingNull;
                SearchExamples.row "m1" (Search.EmbeddingVector [1%float; 2%float]) ])
           [1%float] _
           (SearchExamples.row "m1" (Search.EmbeddingVector [1%float; 2%float]))
           [1%float; 2%float] eq_refl eq_refl).
  - simpl. auto.
  - reflexivity.
  - simpl. lia.
  - reflexivity.
  - reflexivity.
  - repeat constructor; discriminate.
Defined.

(** ** The extraction coordinator *)

Section DeduplicationFacts.

Import Extractor.

Lemma lookup_map_set (k : string) (f : fact) (m : list (string * fact)) (k' : string) :
  lookup k' (map_set k f m) = if String.eqb k k' then Some f else lookup k' m.
Proof.
  induction m as [|[k0 f0] m IH]; simpl.
  - reflexivity.
  - destruct (String.eqb k0 k) eqn:E0; simpl.
    + apply String.eqb_eq in E0. subst k0.
      destruct (String.eqb k k'); reflexivity.
    + rewrite IH. destruct (String.eqb k0 k') eqn:E1; [|reflexivity].
      apply String.eqb_eq in E1. subst k0. rewrite String.eqb_sym, E0. reflexivity.
Qed.

Lemma in_keys_map_set (k : string) (f : fact) (m : list (string * fact)) (k' : string) :
  In k' (map fst (map_set k f m)) <-> k' = k \/ In k' (map fst m).
Proof.
  induction m as [|[k0 f0] m IH]; simpl.
  - intuition.
  - destruct (String.eqb k0 k) eqn:E0; simpl.
    + apply String.eqb_eq in E0. subst k0. intuition.
    + rewrite IH. intuition.
Qed.

Lemma NoDup_map_set (k : string) (f : fact) (m : list (string * fact)) :
  NoDup (map fst m) -> NoDup (map fst (map_set k f m)).
Proof.
  induction m as [|[k0 f0] m IH]; simpl; intro H.
  - constructor; [intros [] | constructor].
  - inversion H as [|? ? Hnotin Hm]; subst.
    destruct (String.eqb k0 k) eqn:E0; simpl.
    + apply String.eqb_eq in E0. subst k0. constructor; assumption.
    + constructor; [|apply IH, Hm].
      rewrite in_keys_map_set. intros [-> | Hin]; [|contradiction].
      rewrite String.eqb_refl in E0. discriminate.
Qed.

Lemma keyed_map_set (f : fact) (m : list (string * fact)) :
  keyed m -> keyed (map_set (key f) f m).
Proof.
  unfold keyed. induction m as [|[k0 f0] m IH]; simpl; intro H.
  - constructor; [reflexivity | constructor].
  - inversion H as [|? ? H0 Hm]; subst.
    destruct (String.eqb k0 (key f)); constructor; auto.
Qed.

Lemma collect_invariant (allFacts : list fact) :
  forall m,
    NoDup (map fst m) -> keyed m ->
    NoDup (map fst (collect m allFacts)) /\ keyed (collect m allFacts).
Proof.
  induction allFacts as [|f l IH]; simpl; intros m Hnd Hk.
  - auto.
  - apply IH; [apply NoDup_map_set, Hnd | apply keyed_map_set, Hk].
Qed.

Lemma find_append {A : Type} (p : A -> bool) (l l' : list A) :
  find p (l ++ l') = match find p l with Some x => Some x | None => find p l' end.
Proof.
  induction l as [|x l IH]; simpl.
  - reflexivity.
  - destruct (p x); [reflexivity | exact IH].
Qed.

Lemma lookup_collect (allFacts : list fact) (k : string) :
  forall m,
    lookup k (collect m allFacts)
    = match last_with_key k allFacts with
      | Some f => Some f
      | None => lookup k m
      end.
Proof.
  unfold last_with_key.
  induction allFacts as [|f l IH]; simpl; intro m.
  - reflexivity.
  - unfold collect in *. simpl. rewrite IH, find_append.
    destruct (find (has_key k) (rev l)) as [g|]; [reflexivity |].
    rewrite lookup_map_set. simpl. unfold has_key.
    destruct (String.eqb (key f) k); reflexivity.
Qed.

Lemma find_keyed (m : list (string * fact)) (k : string) :
  keyed m -> find (has_key k) (map snd m) = lookup k m.
Proof.
  unfold keyed. induction 1 as [|[k0 f0] m H0 _ IH]; simpl.
  - reflexivity.
  - simpl in H0. unfold has_key at 1. rewrite H0, IH. reflexivity.
Qed.

Lemma keys_keyed (m : list (string * fact)) :
  keyed m -> map key (map snd m) = map fst m.
Proof.
  unfold keyed. induction 1 as [|[k0 f0] m H0 _ IH]; simpl.
  - reflexivity.
  - simpl in H0. rewrite H0, IH. reflexivity.
Qed.

(** [uniqueFacts]: one fact per key, and for every key the last fact of
    the sequence that carries it. *)
Lemma uniqueFacts_last_write_wins (allFacts : list fact) :
  NoDup (map key (uniqueFacts allFacts))
  /\ forall k, find (has_key k) (uniqueFacts allFacts) = last_with_key k allFacts.
Proof.
  unfold uniqueFacts. fold (collect [] allFacts).
  destruct (collect_invariant allFacts [] (NoDup_nil _) (Forall_nil _)) as [Hnd Hk].
  split.
  - rewrite keys_keyed by exact Hk. exact Hnd.
  - intro k. rewrite find_keyed by exact Hk. rewrite lookup_collect.
    destruct (last_with_key k allFacts); reflexivity.
Qed.

End DeduplicationFacts.

(** ** The entity extraction client *)

Section EntityClientFacts.

Import Extractor.

Lemma get_of_value (v : js_value) (name : string) :
  nullish v = false -> get v name = Ok (get_optional v name).
Proof.
  unfold get_optional. destruct v; simpl; try discriminate; try reflexivity.
  intros _. destruct (lookup name properties); reflexivity.
Qed.

Lemma get_of_nullish (v : js_value) (name : string) :
  nullish v = true -> raises (get v name).
Proof.
  destruct v; simpl; try discriminate; intros _; eexists; reflexivity.
Qed.

Lemma normalizeEntityType_returns (t : js_value) :
  (truthy (typeMap_get t) || match t with Str _ => true | _ => false end) = true ->
  exists type, normalizeEntityType t = Ok type.
Proof.
  unfold normalizeEntityType. destruct (truthy (typeMap_get t)); simpl.
  - eauto.
  - destruct t; try discriminate. eauto.
Qed.

Lemma normalizeEntityType_throws (t : js_value) :
  (truthy (typeMap_get t) || match t with Str _ => true | _ => false end) = false ->
  raises (normalizeEntityType t).
Proof.
  unfold normalizeEntityType. destruct (truthy (typeMap_get t)); simpl.
  - discriminate.
  - destruct t; try discriminate; intros _; eexists; reflexivity.
Qed.

(** What [candidate] builds from an item it accepts. *)
Lemma candidate_of_typed_item (raw : js_value) :
  typed_item raw = true ->
  exists type,
    normalizeEntityType (get_optional raw "type") = Ok type
    /\ candidate raw
       = Ok {| entity_type := type;
               entity_value := or_else (get_optional raw "text") (get_optional raw "value");
               entity_confidence :=
                 or_else (get_optional raw "confidence") (Number 0.8%float);
               startPos := get_optional raw "start";
               endPos := get_optional raw "end" |}.
Proof.
  intro H.
  assert (Hv : nullish raw = false) by (destruct raw; try discriminate; reflexivity).
  assert (Ht : (truthy (typeMap_get (get_optional raw "type"))
                || match get_optional raw "type" with Str _ => true | _ => false end)
               = true).
  { destruct raw; try discriminate; exact H. }
  destruct (normalizeEntityType_returns _ Ht) as [type Htype].
  exists type. split; [exact Htype |].
  unfold candidate. rewrite !(get_of_value raw) by exact Hv.
  simpl. rewrite Htype. reflexivity.
Qed.

Lemma candidate_of_untyped_item (raw : js_value) :
  typed_item raw = false -> raises (candidate raw).
Proof.
  intro H. unfold candidate.
  destruct (nullish raw) eqn:Hv.
  - destruct (get_of_nullish raw "type" Hv) as [e ->]. eexists; reflexivity.
  - rewrite (get_of_value raw "type" Hv). simpl.
    assert (Ht : (truthy (typeMap_get (get_optional raw "type"))
                  || match get_optional raw "type" with Str _ => true | _ => false end)
                 = false).
    { destruct raw; try discriminate; exact H. }
    destruct (normalizeEntityType_throws _ Ht) as [e ->]. eexists; reflexivity.
Qed.

Lemma candidate_inversion (raw : js_value) (c : entity) :
  candidate raw = Ok c ->
  typed_item raw = true
  /\ entity_confidence c = or_else (get_optional raw "confidence") (Number 0.8%float)
  /\ entity_value c = or_else (get_optional raw "text") (get_optional raw "value").
Proof.
  intro H. destruct (typed_item raw) eqn:Ht.
  - destruct (candidate_of_typed_item raw Ht) as [type [_ Hc]].
    rewrite Hc in H. injection H as <-. auto.
  - destruct (candidate_of_untyped_item raw Ht) as [e He]. congruence.
Qed.

(** The two ways [extractEntitiesViaPhi4] returns. *)
Lemma extractEntitiesViaPhi4_cases (env : extract_env) :
  (exists data items found,
      phi4_response env = Ok data
      /\ response_entities data = Some items
      /\ array_map candidate items = Ok found
      /\ extractEntitiesViaPhi4 env = Ok found)
  \/ ((forall data, phi4_response env = Ok data -> expected_shape data = false)
      /\ extractEntitiesViaPhi4 env = Ok []).
Proof.
  unfold extractEntitiesViaPhi4, entities_of_response, expected_shape, response_entities.
  destruct (phi4_response env) as [data|e]; simpl.
  2:{ right. split; [discriminate | reflexivity]. }
  destruct (is_string (get_optional data "status") "ok") eqn:Hstatus; simpl.
  2:{ right. split; [|reflexivity].
      intros d Hd. injection Hd as <-. rewrite Hstatus. reflexivity. }
  destruct (get_optional (get_optional data "data") "entities") as
    [ | | b | x | s | items | props | t ] eqn:Hfound;
    try (right; split;
         [ intros d Hd; injection Hd as <-; rewrite Hstatus, Hfound; reflexivity
         | destruct (truthy _); reflexivity ]).
  simpl.
  destruct (array_map candidate items) as [found|e] eqn:Hmap.
  - left. exists data, items, found. rewrite Hstatus, Hfound. auto.
  - right. split; [|reflexivity].
    intros d Hd. injection Hd as <-. rewrite Hstatus, Hfound.
    destruct (forallb typed_item items) eqn:Hall; [|reflexivity].
    exfalso. rewrite forallb_forall in Hall.
    destruct (array_map_total candidate items) as [found Hfound'].
    + apply Forall_forall. intros raw Hraw.
      destruct (candidate_of_typed_item raw (Hall raw Hraw)) as [type [_ Hc]]. eauto.
    + congruence.
Qed.


(** C9. Every candidate [extractEntitiesViaPhi4] returns carries a truthy
    confidence, so never the number 0: it is the confidence of its item in
    the response where that is truthy, and 0.8 where it is absent, [null],
    0, or otherwise falsy. *)
Theorem candidate_confidence_is_never_zero (env : extract_env)
  (found : list entity) (c : entity) :
  extractEntitiesViaPhi4 env = Ok found ->
  In c found ->
  truthy (entity_confidence c) = true
  /\ (forall x, entity_confidence c = Number x -> PrimFloat.eqb x 0%float = false)
  /\ exists data items raw,
      phi4_response env = Ok data
      /\ response_entities data = Some items
      /\ In raw items
      /\ candidate raw = Ok c
      /\ (truthy (get_optional raw "confidence") = false ->
          entity_confidence c = Number 0.8%float)
      /\ (truthy (get_optional raw "confidence") = true ->
          entity_confidence c = get_optional raw "confidence").
Proof.
  intros Hret Hin.
  destruct (extractEntitiesViaPhi4_cases env)
    as [(data & items & found' & Hd & Hitems & Hmap & Hret') | [_ Hret']];
    rewrite Hret in Hret'; injection Hret' as ->; [|contradiction].
  assert (Hraw : exists raw, In raw items /\ candidate raw = Ok c).
  { apply array_map_ok in Hmap. clear - Hmap Hin.
    induction Hmap as [|x y l l' Hxy _ IH]; simpl in *; [contradiction |].
    destruct Hin as [<- | Hin]; [eauto |].
    destruct (IH Hin) as [raw [Hraw Hc]]. eauto. }
  destruct Hraw as [raw [Hraw Hc]].
  destruct (candidate_inversion raw c Hc) as (_ & Hconf & _).
  assert (Htruthy : truthy (entity_confidence c) = true).
  { rewrite Hconf. unfold or_else.
    destruct (truthy (get_optional raw "confidence")) eqn:E; [exact E | reflexivity]. }
  split; [exact Htruthy |]. split.
  - intros x Hx. rewrite Hx in Htruthy. simpl in Htruthy.
    destruct (PrimFloat.eqb x 0%float); [discriminate | reflexivity].
  - exists data, items, raw. repeat split; try assumption.
    + intro Hfalsy. rewrite Hconf. unfold or_else. rewrite Hfalsy. reflexivity.
    + intro Htrue. rewrite Hconf. unfold or_else. rewrite Htrue. reflexivity.
Qed.

End EntityClientFacts.


Lemma candidate_confidence_is_never_zero_witness :
  exists found,
    Extractor.extractEntitiesViaPhi4
      (ExtractorExamples.world (ExtractorExamples.response ExtractorExamples.three_items))
    = Ok found
    /\ map Extractor.entity_confidence found
       = [Number 0.8%float; Number 0.8%float; Number 0.3%float]
    /\ map Extractor.entity_type found = [Str "person"; Str "place"; Str "widget"]
    /\ forall c, In c found -> truthy (Extractor.entity_confidence c) = true.
Proof.
  destruct (Extractor.extractEntitiesViaPhi4
              (ExtractorExamples.world
                 (ExtractorExamples.response ExtractorExamples.three_items)))
    as [found|e] eqn:Hret; [| vm_compute in Hret; discriminate].
  exists found. split; [reflexivity |].
  pose proof (candidate_confidence_is_never_zero
                (ExtractorExamples.world
                   (ExtractorExamples.response ExtractorExamples.three_items))
                found) as H.
  repeat split.
  - vm_compute in Hret. injection Hret as <-. reflexivity.
  - vm_compute in Hret. injection Hret as <-. reflexivity.
  - intros c Hc. apply (H c Hret Hc).
Defined.

Section CoordinatorFacts.

Import Extractor.




End CoordinatorFacts.

(** C1 as stated fails on the normal path: the service times out, [extract]
    returns the quick fact and no entity, and its [method] is "phi4_llm",
    which is neither "full" nor "fallback". *)
Lemma extract_method_is_not_full :
  exists r,
    Extractor.extract "My favorite color is blue" (Str "session_1")
      (ExtractorExamples.world ExtractorExamples.timeout) = Ok r
    /\ Extractor.method r = "phi4_llm"
    /\ Extractor.method r <> "full"
    /\ Extractor.method r <> "fallback"
    /\ map Extractor.key (Extractor.facts r) = ["favorite_color"]
    /\ Extractor.entities r = [].
Proof.
  eexists. split; [vm_compute; reflexivity |].
  repeat split; try reflexivity; discriminate.
Qed.



(** The table of entity types: a known type, and an unknown one that
    passes through in lower case. *)
Example normalizeEntityType_table :
  Extractor.normalizeEntityType (Str "GPE") = Ok (Str "place")
  /\ Extractor.normalizeEntityType (Str "WIDGET") = Ok (Str "widget").
Proof. split; reflexivity. Qed.

(** One recognized pattern, one fact. *)
Example extractQuickFacts_favorite_color :
  Extractor.extractQuickFacts "my favorite color is blue"
  = [{| Extractor.key := "favorite_color";
        Extractor.value := Str "blue";
        Extractor.confidence := 0.9%float |}].
Proof. vm_compute. reflexivity. Qed.

(** [uniqueFacts] on a sequence with a repeated key: the key keeps its
    first place and takes the last fact. *)
Example uniqueFacts_repeated_key :
  Extractor.uniqueFacts
    [ExtractorExamples.fact_a1; ExtractorExamples.fact_b; ExtractorExamples.fact_a2]
  = [ExtractorExamples.fact_a2; ExtractorExamples.fact_b].
Proof. reflexivity. Qed.

(** ** The entity store *)

Section EntityStoreFacts.

Import EntityStore.

Local Open Scope Z_scope.

Variables sessionId entityType entityValue : string.

(** The stored record of the entity [(sessionId, entityType, entityValue)],
    and the calls that are for it. *)
Local Abbreviation stored_record db :=
  (select_entity db sessionId entityType entityValue).

Local Abbreviation this_entity c :=
  (call_for sessionId entityType entityValue c).

Lemma same_entity_mention (s t v : string) (ts : Z) (r : entity_row) :
  same_entity s t v (mention ts r) = same_entity s t v r.
Proof. reflexivity. Qed.

Lemma select_update_mention (db : table) (s t v i : string) (ts : Z) :
  select_entity (update_mention db i ts) s t v
  = option_map (fun r => if String.eqb (id r) i then mention ts r else r)
      (select_entity db s t v).
Proof.
  unfold select_entity, update_mention.
  induction db as [|r db IH]; [reflexivity |].
  cbn [map find].
  destruct (String.eqb (id r) i) eqn:E.
  - rewrite same_entity_mention. destruct (same_entity s t v r).
    + cbn [option_map]. rewrite E. reflexivity.
    + exact IH.
  - destruct (same_entity s t v r).
    + cbn [option_map]. rewrite E. reflexivity.
    + exact IH.
Qed.

Lemma select_entity_some (db : table) (s t v : string) (r : entity_row) :
  select_entity db s t v = Some r -> In r db /\ same_entity s t v r = true.
Proof.
  unfold select_entity. apply find_some.
Qed.


Lemma same_entity_eq (s t v : string) (r : entity_row) :
  same_entity s t v r = true <->
  session_id r = s /\ entity_type r = t /\ entity_value r = v.
Proof.
  unfold same_entity. rewrite !andb_true_iff, !String.eqb_eq. tauto.
Qed.














End EntityStoreFacts.



(** * Further properties *)

(** ** The similarity ranker, in binary64 *)

Section FloatSymmetry.

Import Search.

(** Multiplication of doubles commutes. *)
Lemma float_mul_comm (x y : float) :
  PrimFloat.mul x y = PrimFloat.mul y x.
Proof.
  apply Prim2SF_inj. rewrite !mul_spec.
  unfold SF64mul, SFmul.
  destruct (Prim2SF x) as [sx | sx | | sx mx ex], (Prim2SF y) as [sy | sy | | sy my ey];
    try reflexivity; try (rewrite xorb_comm; reflexivity).
  rewrite xorb_comm, Pos.mul_comm, Z.add_comm. reflexivity.
Qed.

Lemma dot_product_from_comm (a : list float) :
  forall (b : list float) (acc : float),
    dot_product_from acc a b = dot_product_from acc b a.
Proof.
  unfold dot_product_from.
  induction a as [|x a IH]; intros [|y b] acc; simpl; try reflexivity.
  rewrite (float_mul_comm x y). apply IH.
Qed.

(** The similarity of two vectors does not depend on their order: the same
    double, or the same error. *)
Theorem cosineSimilarity_symmetric (a b : list float) :
  cosineSimilarity a b = cosineSimilarity b a.
Proof.
  destruct (Nat.eq_dec (length a) (length b)) as [Hlen | Hlen].
  - rewrite (cosineSimilarity_equal_lengths a b Hlen).
    rewrite (cosineSimilarity_equal_lengths b a (eq_sym Hlen)).
    rewrite orb_comm, dot_product_from_comm.
    replace (num_mul (magnitude a) (magnitude b))
      with (num_mul (magnitude b) (magnitude a))
      by exact (float_mul_comm (magnitude b) (magnitude a)).
    reflexivity.
  - rewrite (cosineSimilarity_different_lengths a b Hlen).
    rewrite (cosineSimilarity_different_lengths b a); [reflexivity |].
    intro H. apply Hlen. symmetry. exact H.
Qed.

End FloatSymmetry.

(** ** The semantic retriever: what a returned result contains *)

Section SearchResultFacts.

Import Search SearchResult.

Context {num : Type} {N : JsNumber num}.

(** The recent part and the candidates of the semantic part split the
    scored messages at one place, whatever [includeRecent] is. *)
Lemma recent_and_rest (scoredMessages : list (scored_message num)) (ir : Z) :
  exists k,
    recentMessages scoredMessages ir = firstn k scoredMessages
    /\ slice_from scoredMessages ir = skipn k scoredMessages
    /\ ((0 <= ir)%Z -> k = Nat.min (Z.to_nat ir) (length scoredMessages)).
Proof.
  exists (Z.to_nat (relative_index (Z.of_nat (length scoredMessages)) ir)).
  split; [apply slice_from_start |]. split.
  - unfold slice_from, slice.
    set (len := Z.of_nat (length scoredMessages)).
    pose proof (relative_index_range len ir (Nat2Z.is_nonneg _)) as Hk.
    replace (relative_index len len) with len
      by (unfold relative_index; destruct (len <? 0)%Z eqn:E; lia).
    apply firstn_all2. rewrite length_skipn. unfold len. lia.
  - intro Hir. unfold relative_index. destruct (ir <? 0)%Z eqn:E; lia.
Qed.

Lemma in_skipn_nth_error {A : Type} (k : nat) (l : list A) (x : A) :
  In x (skipn k l) -> exists j, (k <= j)%nat /\ nth_error l j = Some x.
Proof.
  intro H. apply In_nth_error in H. destruct H as [i Hi].
  exists (k + i)%nat. split; [lia |].
  rewrite nth_error_skipn in Hi. exact Hi.
Qed.

Lemma scored_ids (q : list num) (rows : list (message_row num))
  (scoredMessages : list (scored_message num)) :
  array_map (scoreMessage q) rows = Ok scoredMessages ->
  map sm_id scoredMessages = map msg_id rows.
Proof.
  intro Hmap. apply array_map_ok in Hmap.
  induction Hmap as [|row sm rows scored Hscore _ IH]; simpl; [reflexivity |].
  rewrite IH. f_equal. apply (scoreMessage_without_embedding _ _ _ Hscore).
Qed.

Lemma semanticMatches_from_rest (scoredMessages : list (scored_message num))
  (l : Z) (m : num) (ir : Z) (x : scored_message num) :
  In x (semanticMatches scoredMessages l m ir) ->
  In x (slice_from scoredMessages ir) /\ passes m x = true.
Proof.
  unfold semanticMatches. intro H.
  apply slice_incl in H.
  apply (Permutation_in _ (sort_permutation _ _)) in H.
  apply filter_In in H. exact H.
Qed.

Lemma NoDup_map_firstn {A B : Type} (f : A -> B) (k : nat) (l : list A) :
  NoDup (map f l) -> NoDup (map f (firstn k l)).
Proof.
  intro H. rewrite <- (firstn_skipn k l), map_app in H.
  apply NoDup_app_remove_r in H. exact H.
Qed.

Lemma NoDup_map_filter {A B : Type} (f : A -> B) (keep : A -> bool)
  (items : list A) (Hitems : NoDup (map f items)) :
  NoDup (map f (filter keep items)).
Proof.
  revert Hitems.
  induction items as [|x items IH]; simpl; intro H; [exact H |].
  inversion H as [|? ? Hnotin Hrest]; subst.
  destruct (keep x); simpl; [|exact (IH Hrest)].
  constructor; [|exact (IH Hrest)].
  intro Hin. apply Hnotin. apply in_map_iff in Hin.
  destruct Hin as [y [Hy Hin]]. apply filter_In in Hin.
  rewrite <- Hy. apply in_map, Hin.
Qed.

(** The semantic part holds no message twice, and none of the recent
    part. *)
Lemma semanticMatches_ids (scoredMessages : list (scored_message num))
  (l : Z) (m : num) (ir : Z) :
  NoDup (map sm_id scoredMessages) ->
  NoDup (map sm_id (recentMessages scoredMessages ir
                    ++ semanticMatches scoredMessages l m ir)).
Proof.
  intro Hnd.
  destruct (recent_and_rest scoredMessages ir) as (k & Hrecent & Hrest & _).
  assert (Hsplit : NoDup (map sm_id (firstn k scoredMessages)
                          ++ map sm_id (skipn k scoredMessages))).
  { rewrite <- map_app, firstn_skipn. exact Hnd. }
  rewrite map_app, Hrecent.
  apply NoDup_app.
  - apply NoDup_map_firstn, Hnd.
  - unfold semanticMatches. rewrite slice_from_start.
    apply NoDup_map_firstn.
    apply (Permutation_NoDup
             (Permutation_map sm_id (Permutation_sym (sort_permutation _ _)))).
    apply NoDup_map_filter. rewrite Hrest.
    exact (NoDup_app_remove_l _ _ Hsplit).
  - intros i Hi Hi'.
    apply in_map_iff in Hi'. destruct Hi' as [x [<- Hx]].
    apply semanticMatches_from_rest in Hx. destruct Hx as [Hx _].
    rewrite Hrest in Hx.
    assert (Hdis : forall a, In a (map sm_id (firstn k scoredMessages)) ->
                             ~ In a (map sm_id (skipn k scoredMessages))).
    { clear - Hsplit.
      generalize dependent (map sm_id (skipn k scoredMessages)).
      induction (map sm_id (firstn k scoredMessages)) as [|a l1 IH];
        intros l2 Hnd b Hb Hb2; [contradiction |].
      simpl in Hnd. inversion Hnd as [|? ? Hnotin Hnd']; subst.
      destruct Hb as [-> | Hb].
      - apply Hnotin. apply in_or_app. right. exact Hb2.
      - exact (IH l2 Hnd' b Hb Hb2). }
    exact (Hdis _ Hi (in_map sm_id _ _ Hx)).
Qed.

(** A search never returns a message twice: when the rows have pairwise
    different ids, so have the returned messages, recent and semantic
    together. *)
Theorem search_returns_no_message_twice
  (payload : search_payload num) (env : search_env num) (r : search_result num)
  (rows : list (message_row num)) :
  searchMessages payload env = Ok r ->
  db_messages env = Ok rows ->
  NoDup (map msg_id rows) ->
  NoDup (map message_id (messages r)).
Proof.
  intros Hret Hdb Hnd.
  destruct (searchMessages_returns _ _ _ Hret)
    as (q & rows' & scored & _ & Hdb' & Hmap & Hmsgs & _).
  rewrite Hdb in Hdb'. injection Hdb' as <-.
  rewrite <- (scored_ids _ _ _ Hmap) in Hnd.
  rewrite Hmsgs. unfold combinedMessages.
  assert (Hids : forall (t : string) (l : list (scored_message num)),
             map message_id (map (tag t) l) = map sm_id l).
  { intros t l. rewrite map_map. apply map_ext. reflexivity. }
  rewrite map_app, !Hids, <- map_app.
  apply semanticMatches_ids, Hnd.
Qed.

(** Every message returned with the reason "semantic" passed the threshold
    [similarity >= minSimilarity] and is the score of a row of the session
    that lies beyond the recent window. *)
Theorem semantic_entries_pass_threshold
  (payload : search_payload num) (env : search_env num) (r : search_result num)
  (q : list num) (rows : list (message_row num)) :
  searchMessages payload env = Ok r ->
  phi4_embedding env = Ok q ->
  db_messages env = Ok rows ->
  forall m,
    In m (messages r) ->
    reason m = "semantic" ->
    passes (minSimilarity_of payload) (found m) = true
    /\ exists j row,
        nth_error rows j = Some row
        /\ scoreMessage q row = Ok (found m)
        /\ ((0 <= includeRecent_of payload)%Z ->
            (includeRecent_of payload <= Z.of_nat j)%Z).
Proof.
  intros Hret Hphi Hdb m Hin Hreason.
  destruct (searchMessages_returns _ _ _ Hret)
    as (q' & rows' & scored & Hphi' & Hdb' & Hmap & Hmsgs & _).
  rewrite Hphi in Hphi'. injection Hphi' as <-.
  rewrite Hdb in Hdb'. injection Hdb' as <-.
  rewrite Hmsgs in Hin. unfold combinedMessages in Hin.
  apply in_app_or in Hin. destruct Hin as [Hin | Hin];
    apply in_map_iff in Hin; destruct Hin as [x [<- Hx]];
    simpl in Hreason; [discriminate |]. simpl.
  apply semanticMatches_from_rest in Hx. destruct Hx as [Hx Hpass].
  split; [exact Hpass |].
  destruct (recent_and_rest scored (includeRecent_of payload))
    as (k & _ & Hrest & Hk).
  rewrite Hrest in Hx.
  destruct (in_skipn_nth_error k scored x Hx) as (j & Hj & Hnth).
  destruct (Forall2_nth_error_right _ _ _ (array_map_ok _ _ _ Hmap) _ _ Hnth)
    as (row & Hrow & Hscore).
  exists j, row. repeat split; [exact Hrow | exact Hscore |].
  intro Hir. specialize (Hk Hir).
  assert (j < length scored)%nat by (apply nth_error_Some; congruence).
  lia.
Qed.


End SearchResultFacts.

(** ** The order of the semantic part *)

Section SortFacts.

Import Search SearchResult.

Context {num : Type} {N : JsNumber num}.

Context {A : Type} (compare : A -> A -> num).

(** The comparator never sends two elements behind each other. *)
Hypothesis compare_antisymmetric :
  forall x y,
    num_gt (compare x y) num_zero = true -> num_gt (compare y x) num_zero = false.

Let in_order (x y : A) : Prop :=
  num_gt (compare x y) num_zero = false.

Lemma sort_insert_sorted (x : A) (l : list A) :
  Sorted in_order l -> Sorted in_order (sort_insert compare x l).
Proof.
  induction l as [|y l IH]; simpl; intro Hl.
  - repeat constructor.
  - destruct (num_gt (compare x y) num_zero) eqn:Hxy.
    + apply Sorted_inv in Hl. destruct Hl as [Hl Hy].
      constructor; [exact (IH Hl) |].
      destruct l as [|z l]; simpl.
      * constructor. exact (compare_antisymmetric x y Hxy).
      * destruct (num_gt (compare x z) num_zero).
        -- constructor. exact (HdRel_inv Hy).
        -- constructor. exact (compare_antisymmetric x y Hxy).
    + constructor; [exact Hl |]. constructor. exact Hxy.
Qed.

Lemma sort_sorted (l : list A) :
  Sorted in_order (sort compare l).
Proof.
  induction l as [|x l IH]; simpl.
  - constructor.
  - apply sort_insert_sorted, IH.
Qed.

Lemma firstn_sorted (R : A -> A -> Prop) (k : nat) (l : list A) :
  Sorted R l -> Sorted R (firstn k l).
Proof.
  revert k. induction l as [|x l IH]; intros [|k] Hl; simpl; try constructor.
  - apply Sorted_inv in Hl. apply IH, Hl.
  - apply Sorted_inv in Hl. destruct Hl as [_ Hx].
    destruct l as [|y l]; destruct k; simpl; constructor.
    exact (HdRel_inv Hx).
Qed.

End SortFacts.

Section FloatOrder.

Import Search SearchResult.

Lemma binary_round_aux_negative (prec emax mx ex : Z) (l : location) :
  sf_positive (binary_round_aux prec emax true mx ex l) = false.
Proof.
  unfold binary_round_aux.
  destruct (shr_fexp prec emax mx ex l) as [mrs' e'].
  destruct (shr_fexp prec emax _ e' loc_Exact) as [mrs'' e''].
  destruct (shr_m mrs''); try reflexivity.
  destruct (e'' <=? emax - prec)%Z; reflexivity.
Qed.

Lemma binary_normalize_positive (prec emax m e : Z) (szero : bool) :
  sf_positive (binary_normalize prec emax m e szero) = true -> (0 < m)%Z.
Proof.
  destruct m as [|p|p]; simpl.
  - destruct szero; discriminate.
  - lia.
  - unfold binary_round.
    destruct (shl_align p e _) as [mz ez].
    rewrite binary_round_aux_negative. discriminate.
Qed.

Lemma binary_normalize_not_positive (prec emax m e : Z) (szero : bool) :
  (m <= 0)%Z -> sf_positive (binary_normalize prec emax m e szero) = false.
Proof.
  intro H. destruct (sf_positive _) eqn:E; [|reflexivity].
  apply binary_normalize_positive in E. lia.
Qed.

Lemma SFsub_antisymmetric (prec emax : Z) (x y : spec_float) :
  sf_positive (SFsub prec emax x y) = true ->
  sf_positive (SFsub prec emax y x) = false.
Proof.
  destruct x as [sx | sx | | sx mx ex], y as [sy | sy | | sy my ey];
    try (simpl; intro H; (discriminate H || reflexivity));
    try (destruct sx; simpl; intro H; (discriminate H || reflexivity));
    try (destruct sy; simpl; intro H; (discriminate H || reflexivity));
    try (destruct sx, sy; simpl; intro H; (discriminate H || reflexivity)).
  unfold SFsub. intro H. apply binary_normalize_positive in H.
  apply binary_normalize_not_positive.
  rewrite (Z.min_comm ey ex). lia.
Qed.

(** In binary64, [x - y > 0] excludes [y - x > 0]. *)
Lemma float_sub_antisymmetric (x y : float) :
  PrimFloat.ltb 0%float (PrimFloat.sub x y) = true ->
  PrimFloat.ltb 0%float (PrimFloat.sub y x) = false.
Proof.
  rewrite !ltb_spec, !sub_spec.
  change (Prim2SF 0%float) with (S754_zero false).
  apply SFsub_antisymmetric.
Qed.

(** The semantic part of a result is in the order of its comparator: of
    two neighbours, the later one never scores higher than the earlier one
    (the double [later - earlier] is not positive). *)
Theorem semantic_part_is_sorted
  (payload : search_payload float) (env : search_env float) (r : search_result float) :
  searchMessages payload env = Ok r ->
  exists recent semantic,
    messages r = map (tag "recent") recent ++ map (tag "semantic") semantic
    /\ filter is_semantic (messages r) = map (tag "semantic") semantic
    /\ Sorted may_precede semantic.
Proof.
  intro Hret.
  destruct (searchMessages_returns _ _ _ Hret)
    as (q & rows & scored & _ & _ & _ & Hmsgs & _).
  exists (recentMessages scored (includeRecent_of payload)),
    (semanticMatches scored (limit_of payload) (minSimilarity_of payload)
       (includeRecent_of payload)).
  split; [exact Hmsgs |]. split.
  - rewrite Hmsgs. unfold combinedMessages. rewrite filter_app.
    assert (Hnone : forall l : list (scored_message float),
               filter is_semantic (map (tag "recent") l) = []).
    { induction l as [|x l IH]; simpl; [reflexivity | exact IH]. }
    assert (Hall : forall l : list (scored_message float),
               filter is_semantic (map (tag "semantic") l) = map (tag "semantic") l).
    { induction l as [|x l IH]; simpl; [reflexivity | rewrite IH; reflexivity]. }
    rewrite Hnone, Hall. reflexivity.
  - unfold semanticMatches. rewrite slice_from_start.
    apply firstn_sorted.
    apply (sort_sorted
             (fun a b : scored_message float => num_sub (similarity b) (similarity a))).
    intros x y. apply float_sub_antisymmetric.
Qed.

End FloatOrder.

(** ** The statistics of a search *)

Section SearchStatsFacts.

Import Search SearchResult.

Context {num : Type} {N : JsNumber num}.

Lemma hasEmbedding_stores_vector (q : list num) (row : message_row num)
  (sm : scored_message num) :
  scoreMessage q row = Ok sm -> hasEmbedding sm = stores_vector row.
Proof.
  unfold scoreMessage, parse_embedding, stores_vector.
  destruct (msg_embedding row) as [| |v]; simpl.
  - destruct (parse_metadata row); simpl; [|discriminate].
    intro H. injection H as <-. reflexivity.
  - destruct (parse_metadata row); simpl; [|discriminate].
    intro H. injection H as <-. reflexivity.
  - destruct (cosineSimilarity q v); simpl; [|discriminate].
    destruct (parse_metadata row); simpl; [|discriminate].
    intro H. injection H as <-. reflexivity.
Qed.

Lemma count_with_embedding (q : list num) (rows : list (message_row num))
  (scoredMessages : list (scored_message num)) :
  array_map (scoreMessage q) rows = Ok scoredMessages ->
  length (filter hasEmbedding scoredMessages) = length (filter stores_vector rows).
Proof.
  intro Hmap. apply array_map_ok in Hmap.
  induction Hmap as [|row sm rows scored Hscore _ IH]; simpl; [reflexivity |].
  rewrite (hasEmbedding_stores_vector _ _ _ Hscore).
  destruct (stores_vector row); simpl; rewrite IH; reflexivity.
Qed.

(** The counters of a result agree with its messages: [count] is their
    number; for a session without messages there are no statistics; else
    [totalMessages] is the number of rows, [recentCount] and
    [semanticCount] add up to [count], and [messagesWithEmbeddings] counts
    the rows that store a vector, returned or not. *)
Theorem search_counters_agree
  (payload : search_payload num) (env : search_env num) (r : search_result num)
  (rows : list (message_row num)) :
  searchMessages payload env = Ok r ->
  db_messages env = Ok rows ->
  count r = length (messages r)
  /\ match stats r with
     | None => rows = [] /\ messages r = []
     | Some st =>
         rows <> []
         /\ totalMessages st = length rows
         /\ (recentCount st + semanticCount st = count r)%nat
         /\ recentCount st = length (filter is_recent (messages r))
         /\ semanticCount st = length (filter is_semantic (messages r))
         /\ messagesWithEmbeddings st = length (filter stores_vector rows)
     end.
Proof.
  unfold searchMessages, generateEmbedding.
  destruct (missing (sessionId payload) || missing (query payload)); [discriminate |].
  destruct (phi4_embedding env) as [q|e]; simpl; [|discriminate].
  destruct (db_messages env) as [rows'|e]; simpl; [|discriminate].
  intros Hret Hdb. injection Hdb as ->.
  destruct rows as [|row rows].
  - simpl in Hret. injection Hret as <-. simpl. auto.
  - cbn [length Nat.eqb] in Hret.
    destruct (array_map (scoreMessage q) (row :: rows)) as [scored|e] eqn:Hmap;
      simpl in Hret; [|discriminate].
    injection Hret as <-. cbn [count messages stats totalMessages recentCount
                                 semanticCount messagesWithEmbeddings].
    assert (Hrecent : forall l : list (scored_message num),
               filter is_recent (map (tag "recent") l) = map (tag "recent") l
               /\ filter is_semantic (map (tag "recent") l) = []).
    { induction l as [|x l [IH1 IH2]]; simpl; [auto |]. rewrite IH1, IH2. auto. }
    assert (Hsemantic : forall l : list (scored_message num),
               filter is_recent (map (tag "semantic") l) = []
               /\ filter is_semantic (map (tag "semantic") l) = map (tag "semantic") l).
    { induction l as [|x l [IH1 IH2]]; simpl; [auto |]. rewrite IH1, IH2. auto. }
    unfold combinedMessages.
    rewrite !filter_app, !length_app.
    rewrite (proj1 (Hrecent _)), (proj2 (Hrecent _)).
    rewrite (proj1 (Hsemantic _)), (proj2 (Hsemantic _)).
    rewrite !length_map. simpl.
    repeat split; try lia; try discriminate.
    apply (count_with_embedding q _ _ Hmap).
Qed.

End SearchStatsFacts.

Lemma search_returns_no_message_twice_witness :
  exists r,
    Search.searchMessages (SearchExamples.request None None None)
      (SearchExamples.world SearchExamples.five_rows) = Ok r
    /\ map SearchResult.message_id (Search.messages r) = ["m5"; "m4"; "m3"; "m1"]
    /\ NoDup (map SearchResult.message_id (Search.messages r)).
Proof.
  destruct (Search.searchMessages (SearchExamples.request None None None)
              (SearchExamples.world SearchExamples.five_rows)) as [r|e] eqn:Hret;
    [| vm_compute in Hret; discriminate].
  exists r. split; [reflexivity |]. split.
  - vm_compute in Hret. injection Hret as <-. reflexivity.
  - apply (search_returns_no_message_twice
             (SearchExamples.request None None None)
             (SearchExamples.world SearchExamples.five_rows) r
             SearchExamples.five_rows Hret eq_refl).
    repeat constructor; simpl; intuition discriminate.
Defined.

Lemma semantic_entries_pass_threshold_witness :
  exists r,
    Search.searchMessages (SearchExamples.request None None None)
      (SearchExamples.world SearchExamples.five_rows) = Ok r
    /\ forall m,
        In m (Search.messages r) ->
        Search.reason m = "semantic" ->
        SearchResult.passes 0.5%float (Search.found m) = true.
Proof.
  destruct (Search.searchMessages (SearchExamples.request None None None)
              (SearchExamples.world SearchExamples.five_rows)) as [r|e] eqn:Hret;
    [| vm_compute in Hret; discriminate].
  exists r. split; [reflexivity |].
  intros m Hin Hreason.
  exact (proj1 (semantic_entries_pass_threshold
                  (SearchExamples.request None None None)
                  (SearchExamples.world SearchExamples.five_rows) r
                  [1%float] SearchExamples.five_rows Hret eq_refl eq_refl
                  m Hin Hreason)).
Defined.

Lemma semantic_part_is_sorted_witness :
  exists r semantic,
    Search.searchMessages (SearchExamples.request (Some 6%Z) (Some 0%float) (Some 1%Z))
      (SearchExamples.world SearchExamples.five_rows) = Ok r
    /\ filter SearchResult.is_semantic (Search.messages r)
       = map (Search.tag "semantic") semantic
    /\ map Search.sm_id semantic = ["m3"; "m1"; "m4"; "m2"]
    /\ Sorted SearchResult.may_precede semantic.
Proof.
  destruct (Search.searchMessages
              (SearchExamples.request (Some 6%Z) (Some 0%float) (Some 1%Z))
              (SearchExamples.world SearchExamples.five_rows)) as [r|e] eqn:Hret;
    [| vm_compute in Hret; discriminate].
  destruct (semantic_part_is_sorted _ _ r Hret)
    as (recent & semantic & _ & Hsem & Hsorted).
  exists r, semantic. split; [reflexivity |]. split; [exact Hsem |].
  split; [|exact Hsorted].
  vm_compute in Hret. injection Hret as <-.
  vm_compute in Hsem.
  destruct semantic as [|s1 [|s2 [|s3 [|s4 [|s5 rest]]]]]; try discriminate Hsem.
  injection Hsem as <- <- <- <-. reflexivity.
Defined.

Lemma search_counters_agree_witness :
  exists r st,
    Search.searchMessages (SearchExamples.request None None None)
      (SearchExamples.world SearchExamples.five_rows) = Ok r
    /\ Search.stats r = Some st
    /\ Search.count r = 4%nat
    /\ Search.totalMessages st = 5%nat
    /\ (Search.recentCount st + Search.semanticCount st = Search.count r)%nat
    /\ Search.messagesWithEmbeddings st = 2%nat.
Proof.
  destruct (Search.searchMessages (SearchExamples.request None None None)
              (SearchExamples.world SearchExamples.five_rows)) as [r|e] eqn:Hret;
    [| vm_compute in Hret; discriminate].
  pose proof (search_counters_agree
                (SearchExamples.request None None None)
                (SearchExamples.world SearchExamples.five_rows) r
                SearchExamples.five_rows Hret eq_refl) as [Hcount Hstats].
  destruct (Search.stats r) as [st|] eqn:Hst;
    [| destruct Hstats as [Hrows _]; discriminate Hrows].
  destruct Hstats as (_ & Htotal & Hsum & _ & _ & Hemb).
  exists r, st. split; [reflexivity |]. split; [exact Hst |].
  split; [| split; [exact Htotal | split; [exact Hsum | exact Hemb]]].
  vm_compute in Hret. injection Hret as <-. reflexivity.
Defined.

(** ** Patterns *)

Section PatternFacts.

Import Patterns.

Lemma plus_greedy_sound {R : Type} (class : ascii -> bool) (s : string)
  (k : string -> option R) (x : R) :
  plus_greedy class s k = Some x ->
  exists rest, class_run class s rest /\ k rest = Some x.
Proof.
  induction s as [|c s IH]; simpl; [discriminate |].
  destruct (class c) eqn:Hc; [|discriminate].
  destruct (plus_greedy class s k) as [y|] eqn:Hmore.
  - intro H. injection H as <-.
    destruct (IH eq_refl) as [rest [Hrun Hk]].
    exists rest. split; [apply run_more; assumption | exact Hk].
  - intro H. exists s. split; [apply run_one; exact Hc | exact H].
Qed.

Lemma plus_lazy_sound {R : Type} (class : ascii -> bool) (s : string)
  (k : string -> option R) (x : R) :
  plus_lazy class s k = Some x ->
  exists rest, class_run class s rest /\ k rest = Some x.
Proof.
  induction s as [|c s IH]; simpl; [discriminate |].
  destruct (class c) eqn:Hc; [|discriminate].
  destruct (k s) as [y|] eqn:Hnow.
  - intro H. injection H as <-.
    exists s. split; [apply run_one; exact Hc | exact Hnow].
  - intro H. destruct (IH H) as [rest [Hrun Hk]].
    exists rest. split; [apply run_more; assumption | exact Hk].
Qed.

(** The backtracking matcher only finds what the pattern matches. *)
Lemma match_here_sound {R : Type} (r : regex) :
  forall (s : string) (captures : list string)
         (k : string -> list string -> option R) (x : R),
    match_here r s captures k = Some x ->
    exists rest found,
      matches r s rest found /\ k rest (captures ++ found) = Some x.
Proof.
  induction r as [t | r1 IH1 r2 IH2 | r1 IH1 r2 IH2 | class | class | r1 IH1 | ];
    intros s captures k x; simpl.
  - destruct (after_literal t s) as [rest|] eqn:Hlit; [|discriminate].
    intro H. exists rest, []. rewrite app_nil_r.
    split; [constructor; exact Hlit | exact H].
  - destruct (match_here r1 s captures k) as [y|] eqn:Hleft.
    + intro H. injection H as <-.
      destruct (IH1 _ _ _ _ Hleft) as (rest & found & Hm & Hk).
      exists rest, found. split; [apply matches_left; exact Hm | exact Hk].
    + intro H. destruct (IH2 _ _ _ _ H) as (rest & found & Hm & Hk).
      exists rest, found. split; [apply matches_right; exact Hm | exact Hk].
  - intro H. destruct (IH1 _ _ _ _ H) as (middle & c1 & Hm1 & Hk1).
    destruct (IH2 _ _ _ _ Hk1) as (rest & c2 & Hm2 & Hk2).
    exists rest, (c1 ++ c2). rewrite app_assoc.
    split; [econstructor; eassumption | exact Hk2].
  - intro H. destruct (plus_greedy_sound _ _ _ _ H) as [rest [Hrun Hk]].
    exists rest, []. rewrite app_nil_r. split; [constructor; exact Hrun | exact Hk].
  - intro H. destruct (plus_lazy_sound _ _ _ _ H) as [rest [Hrun Hk]].
    exists rest, []. rewrite app_nil_r. split; [constructor; exact Hrun | exact Hk].
  - intro H. destruct (IH1 _ _ _ _ H) as (rest & found & Hm & Hk).
    exists rest, (found ++ [consumed s rest]). rewrite app_assoc.
    split; [constructor; exact Hm | exact Hk].
  - destruct s; [|discriminate].
    intro H. exists "", []. rewrite app_nil_r. split; [constructor | exact H].
Qed.

(** [text.match(regex)] returns the captures of a match that starts
    somewhere in the text. *)
Lemma regex_match_sound (r : regex) (text : string) (captures : list string) :
  regex_match r text = Some captures ->
  exists before s rest,
    text = (before ++ s)%string /\ matches r s rest captures.
Proof.
  induction text as [|c text IH]; simpl.
  - destruct (match_here r "" [] _) as [found|] eqn:Hm; [|discriminate].
    intro H. injection H as ->.
    destruct (match_here_sound _ _ _ _ _ Hm) as (rest & found & Hmatch & Hk).
    injection Hk as <-. exists "", "", rest. auto.
  - destruct (match_here r (String c text) [] _) as [found|] eqn:Hm.
    + intro H. injection H as ->.
      destruct (match_here_sound _ _ _ _ _ Hm) as (rest & found & Hmatch & Hk).
      injection Hk as <-. exists "", (String c text), rest. auto.
    + intro H. destruct (IH H) as (before & s & rest & -> & Hmatch).
      exists (String c before), s, rest. auto.
Qed.

Lemma class_run_shorter (class : ascii -> bool) (s rest : string) :
  class_run class s rest -> String.length rest < String.length s.
Proof.
  induction 1; simpl; lia.
Qed.

Lemma substring_nothing (s : string) : String.substring 0 0 s = "".
Proof.
  destruct s; reflexivity.
Qed.

Lemma class_run_consumed (class : ascii -> bool) (s rest : string) :
  class_run class s rest ->
  consumed s rest <> ""
  /\ all_of class (consumed s rest) = true
  /\ s = (consumed s rest ++ rest)%string.
Proof.
  induction 1 as [c rest' Hc | c s' rest' Hc Hrun IH].
  - unfold consumed. simpl String.length.
    replace (S (String.length rest') - String.length rest') with 1 by lia.
    simpl. rewrite substring_nothing. simpl. rewrite Hc.
    repeat split; discriminate || reflexivity.
  - pose proof (class_run_shorter _ _ _ Hrun) as Hlt.
    destruct IH as (Hne & Hall & Heq).
    unfold consumed in *. simpl String.length.
    replace (S (String.length s') - String.length rest')
      with (S (String.length s' - String.length rest')) by lia.
    simpl. rewrite Hc, Hall. repeat split; [discriminate | f_equal; exact Heq].
Qed.

End PatternFacts.

(** ** Strings *)

Section StringFacts.

Import Patterns.

Lemma append_assoc (a b c : string) : ((a ++ b) ++ c = a ++ (b ++ c))%string.
Proof.
  induction a as [|x a IH]; simpl; [reflexivity | rewrite IH; reflexivity].
Qed.

Lemma append_empty (a : string) : (a ++ "")%string = a.
Proof.
  induction a as [|x a IH]; simpl; [reflexivity | rewrite IH; reflexivity].
Qed.

Lemma prefix_append (part s : string) :
  String.prefix part s = true <-> exists after, s = (part ++ after)%string.
Proof.
  revert s. induction part as [|a part IH]; intros [|b s]; simpl.
  - split; [intros _; exists ""; reflexivity | reflexivity].
  - split; [intros _; exists (String b s); reflexivity | reflexivity].
  - split; [discriminate | intros [after H]; discriminate].
  - destruct (ascii_dec a b) as [<- | Hne].
    + rewrite IH. split; intros [after H]; exists after.
      * rewrite H. reflexivity.
      * injection H as H. exact H.
    + split; [discriminate |]. intros [after H]. injection H as H _.
      symmetry in H. contradiction.
Qed.

(** [s.includes(part)] holds exactly when [part] occurs in [s]. *)
Lemma includes_occurs (s part : string) :
  includes s part = true
  <-> exists before after, s = (before ++ part ++ after)%string.
Proof.
  split.
  - induction s as [|c s IH]; cbn [includes].
    + destruct (String.prefix part "") eqn:Hp; [|discriminate].
      intros _. apply prefix_append in Hp. destruct Hp as [after Hp].
      exists "", after. exact Hp.
    + destruct (String.prefix part (String c s)) eqn:Hp.
      * intros _. apply prefix_append in Hp. destruct Hp as [after Hp].
        exists "", after. exact Hp.
      * intro H. destruct (IH H) as (before & after & ->).
        exists (String c before), after. reflexivity.
  - intros (before & after & ->).
    induction before as [|c before IH].
    + assert (Hp : String.prefix part (part ++ after) = true)
        by (apply prefix_append; eexists; reflexivity).
      change ("" ++ part ++ after)%string with (part ++ after)%string.
      destruct (part ++ after)%string; cbn [includes]; rewrite Hp; reflexivity.
    + change (String c before ++ part ++ after)%string
        with (String c (before ++ part ++ after)).
      cbn [includes].
      destruct (String.prefix part (String c (before ++ part ++ after)));
        [reflexivity | exact IH].
Qed.

Lemma includes_part (before part after : string) :
  includes (before ++ part ++ after) part = true.
Proof.
  apply includes_occurs. eauto.
Qed.

Lemma includes_transitive (s middle part : string) :
  includes s middle = true -> includes middle part = true -> includes s part = true.
Proof.
  rewrite !includes_occurs.
  intros (b1 & a1 & ->) (b2 & a2 & ->).
  exists (b1 ++ b2)%string, (a2 ++ a1)%string.
  rewrite !append_assoc. reflexivity.
Qed.

Lemma toLowerCase_append (a b : string) :
  toLowerCase (a ++ b) = (toLowerCase a ++ toLowerCase b)%string.
Proof.
  induction a as [|x a IH]; simpl; [reflexivity | rewrite IH; reflexivity].
Qed.

Lemma includes_toLowerCase (s part : string) :
  includes s part = true -> includes (toLowerCase s) (toLowerCase part) = true.
Proof.
  rewrite !includes_occurs. intros (before & after & ->).
  exists (toLowerCase before), (toLowerCase after).
  rewrite !toLowerCase_append. reflexivity.
Qed.



Lemma trimStart_suffix (s : string) :
  exists before, s = (before ++ trimStart s)%string.
Proof.
  induction s as [|c s [before IH]]; simpl.
  - exists "". reflexivity.
  - destruct (is_space c).
    + exists (String c before). simpl. rewrite <- IH. reflexivity.
    + exists "". reflexivity.
Qed.

Lemma trimEnd_prefix (s : string) :
  exists after, s = (trimEnd s ++ after)%string.
Proof.
  induction s as [|c s [after IH]]; simpl.
  - exists "". reflexivity.
  - destruct (trimEnd s) as [|d t] eqn:Ht.
    + destruct (is_space c).
      * exists (String c s). reflexivity.
      * exists s. reflexivity.
    + exists after. simpl. rewrite IH at 1. reflexivity.
Qed.

(** [s.trim()] is a part of [s]. *)
Lemma includes_trim (s : string) : includes s (trim s) = true.
Proof.
  apply includes_occurs. unfold trim.
  destruct (trimStart_suffix s) as [before Hs].
  destruct (trimEnd_prefix (trimStart s)) as [after Ht].
  exists before, after. rewrite <- Ht. exact Hs.
Qed.

Lemma trimStart_starts (s : string) :
  trimStart s = "" \/ exists c t, trimStart s = String c t /\ is_space c = false.
Proof.
  induction s as [|c s IH]; simpl; [auto |].
  destruct (is_space c) eqn:Hc; [exact IH |]. right. eauto.
Qed.

Lemma trimEnd_idempotent (s : string) : trimEnd (trimEnd s) = trimEnd s.
Proof.
  induction s as [|c s IH]; simpl; [reflexivity |].
  destruct (trimEnd s) as [|d t] eqn:Ht.
  - destruct (is_space c) eqn:Hc; simpl; [reflexivity | rewrite Hc; reflexivity].
  - change (trimEnd (String c (String d t))) with
      (match trimEnd (String d t) with
       | EmptyString => if is_space c then EmptyString else String c EmptyString
       | u => String c u
       end).
    rewrite IH. reflexivity.
Qed.

Lemma trimEnd_keeps_start (c : ascii) (s : string) :
  is_space c = false -> exists t, trimEnd (String c s) = String c t.
Proof.
  intro Hc. simpl. destruct (trimEnd s); [rewrite Hc |]; eauto.
Qed.

(** Trimming leaves nothing to trim. *)
Lemma trim_idempotent (s : string) : trim (trim s) = trim s.
Proof.
  unfold trim.
  destruct (trimStart_starts s) as [-> | (c & t & -> & Hc)]; [reflexivity |].
  destruct (trimEnd_keeps_start c t Hc) as [u Hu].
  rewrite Hu at 1. simpl trimStart. rewrite Hc, <- Hu.
  apply trimEnd_idempotent.
Qed.

Lemma all_of_append (class : ascii -> bool) (a b : string) :
  all_of class (a ++ b) = all_of class a && all_of class b.
Proof.
  induction a as [|x a IH]; simpl; [reflexivity |].
  rewrite IH. apply andb_assoc.
Qed.

Lemma all_of_trim (class : ascii -> bool) (s : string) :
  all_of class s = true -> all_of class (trim s) = true.
Proof.
  intro H. pose proof (includes_trim s) as Hin.
  apply includes_occurs in Hin. destruct Hin as (before & after & Hs).
  rewrite Hs, !all_of_append in H.
  apply andb_prop in H. destruct H as [_ H].
  apply andb_prop in H. tauto.
Qed.

End StringFacts.

(** ** What a match captures *)

Section CaptureFacts.

Import Patterns.

Lemma length_append (a b : string) :
  String.length (a ++ b) = String.length a + String.length b.
Proof.
  induction a as [|x a IH]; simpl; [reflexivity | rewrite IH; reflexivity].
Qed.

Lemma consumed_append (w rest : string) : consumed (w ++ rest) rest = w.
Proof.
  unfold consumed. rewrite length_append.
  replace (String.length w + String.length rest - String.length rest)
    with (String.length w) by lia.
  induction w as [|c w IH]; simpl; [apply substring_nothing | rewrite IH; reflexivity].
Qed.

Lemma after_literal_suffix (t s rest : string) :
  after_literal t s = Some rest -> exists w, s = (w ++ rest)%string.
Proof.
  revert s. induction t as [|a t IH]; intros s; simpl.
  - intro H. injection H as <-. exists "". reflexivity.
  - destruct s as [|b s]; [discriminate |].
    destruct (Ascii.eqb (lower_char a) (lower_char b)); [|discriminate].
    intro H. destruct (IH _ H) as [w ->]. exists (String b w). reflexivity.
Qed.

(** A match ends inside the input it started on. *)
Lemma matches_suffix (r : regex) (s rest : string) (captures : list string) :
  matches r s rest captures -> exists w, s = (w ++ rest)%string.
Proof.
  induction 1 as [t s rest Hlit | r1 r2 s rest c _ IH | r1 r2 s rest c _ IH
                   | r1 r2 s middle rest c1 c2 _ [w1 IH1] _ [w2 IH2]
                   | class s rest Hrun | class s rest Hrun
                   | r s rest c _ IH | ].
  - exact (after_literal_suffix _ _ _ Hlit).
  - exact IH.
  - exact IH.
  - exists (w1 ++ w2)%string. rewrite append_assoc, <- IH2. exact IH1.
  - exists (consumed s rest). exact (proj2 (proj2 (class_run_consumed _ _ _ Hrun))).
  - exists (consumed s rest). exact (proj2 (proj2 (class_run_consumed _ _ _ Hrun))).
  - exact IH.
  - exists "". reflexivity.
Qed.

(** Every group captures a part of the input. *)
Lemma matches_captures (r : regex) (s rest : string) (captures : list string) :
  matches r s rest captures -> Forall (fun c => includes s c = true) captures.
Proof.
  induction 1 as [t s rest Hlit | r1 r2 s rest c _ IH | r1 r2 s rest c _ IH
                   | r1 r2 s middle rest c1 c2 H1 IH1 _ IH2
                   | class s rest Hrun | class s rest Hrun
                   | r s rest c H IH | ]; try constructor; try assumption.
  - apply Forall_app. split; [exact IH1 |].
    destruct (matches_suffix _ _ _ _ H1) as [w ->].
    revert IH2. apply Forall_impl. intro c.
    apply includes_transitive.
    rewrite <- (append_empty middle) at 1. apply includes_part.
  - apply Forall_app. split; [exact IH |].
    constructor; [|constructor].
    destruct (matches_suffix _ _ _ _ H) as [w ->].
    rewrite consumed_append. apply (includes_part "" w rest).
Qed.

(** What [text.match(regex)] captures is the capture of a match of the
    pattern, and a part of the text. *)
Lemma regex_match_captures (r : regex) (text : string) (captures : list string) :
  regex_match r text = Some captures ->
  Forall (fun c => includes text c = true) captures
  /\ exists s rest, matches r s rest captures.
Proof.
  intro H. destruct (regex_match_sound _ _ _ H) as (before & s & rest & -> & Hm).
  split; [|eauto].
  pose proof (matches_captures _ _ _ _ Hm) as Hc.
  revert Hc. apply Forall_impl. intro c. apply includes_transitive.
  rewrite <- (append_empty s) at 1. apply includes_part.
Qed.

Lemma group_included (text : string) (captures : list string) (i : nat) :
  Forall (fun c => includes text c = true) captures ->
  includes text (group captures i) = true.
Proof.
  intro H. unfold group.
  destruct (nth_in_or_default (i - 1) captures ""%string) as [Hin | ->].
  - rewrite Forall_forall in H. apply H, Hin.
  - apply (includes_part "" "" text).
Qed.

Lemma class_run_word (class : ascii -> bool) (s rest : string) :
  class_run class s rest ->
  consumed s rest <> "" /\ all_of class (consumed s rest) = true.
Proof.
  intro H. destruct (class_run_consumed _ _ _ H) as (H1 & H2 & _). auto.
Qed.

End CaptureFacts.

Ltac invert_matches :=
  repeat match goal with
         | H : Patterns.matches (Seq _ _) _ _ _ |- _ => inversion H; subst; clear H
         | H : Patterns.matches (Alt _ _) _ _ _ |- _ => inversion H; subst; clear H
         | H : Patterns.matches (Group _) _ _ _ |- _ => inversion H; subst; clear H
         | H : Patterns.matches (Lit _) _ _ _ |- _ => inversion H; subst; clear H
         | H : Patterns.matches (Plus _) _ _ _ |- _ => inversion H; subst; clear H
         | H : Patterns.matches (PlusLazy _) _ _ _ |- _ => inversion H; subst; clear H
         | H : Patterns.matches EndOfInput _ _ _ |- _ => inversion H; subst; clear H
         end.

(** ** Quick facts *)

Section QuickFactFacts.

Import Extractor Patterns ExtractedFacts.

Lemma name_regex_captures (s rest : string) (m : list string) :
  matches name_regex s rest m -> exists w, m = [w] /\ word w.
Proof.
  unfold name_regex, sequence. cbn [fold_right]. intro H. invert_matches.
  match goal with Hrun : class_run _ _ _ |- _ =>
    apply class_run_word in Hrun; destruct Hrun as [Hne Hall] end.
  eexists. split; [reflexivity | split; assumption].
Qed.

Lemma favorite_regex_captures (s rest : string) (m : list string) :
  matches favorite_regex s rest m ->
  exists w v, m = [w; v] /\ word w /\ all_of is_word_or_space v = true.
Proof.
  unfold favorite_regex, sequence. cbn [fold_right]. intro H. invert_matches;
    repeat match goal with Hrun : class_run _ _ _ |- _ =>
      apply class_run_word in Hrun; destruct Hrun as [? ?] end;
    (do 2 eexists; split; [reflexivity | split; [split |]; assumption]).
Qed.

(** The quick facts are at most one fact of the first pattern followed by
    at most one of the second. *)
Lemma extractQuickFacts_shape (text : string) :
  exists favorite name,
    extractQuickFacts text = favorite ++ name
    /\ length favorite <= 1 /\ length name <= 1
    /\ Forall (favorite_fact text) favorite
    /\ Forall (name_fact text) name.
Proof.
  unfold extractQuickFacts, quickFactPatterns. cbn [flat_map fst snd].
  rewrite app_nil_r.
  do 2 eexists. split; [reflexivity |].
  destruct (regex_match favorite_regex text) as [m|] eqn:Hfav;
    destruct (regex_match name_regex text) as [m'|] eqn:Hname;
    simpl; repeat split; try lia; try constructor; try constructor.
  all: try (apply regex_match_captures in Hfav;
            destruct Hfav as [Hin (s & rest & Hm)];
            destruct (favorite_regex_captures _ _ _ Hm) as (w & v & -> & Hw & Hv);
            inversion Hin as [|? ? Hw_in Hin']; subst;
            inversion Hin' as [|? ? Hv_in _]; subst;
            exists w, (trim v); cbn [group nth Nat.sub key value confidence];
            repeat split;
            [ apply Hw | apply Hw | exact Hw_in | apply trim_idempotent
            | apply all_of_trim, Hv
            | exact (includes_transitive _ _ _ Hv_in (includes_trim v)) ]).
  all: try (apply regex_match_captures in Hname;
            destruct Hname as [Hin (s & rest & Hm)];
            destruct (name_regex_captures _ _ _ Hm) as (w & -> & Hw);
            inversion Hin as [|? ? Hw_in _]; subst;
            exists w; cbn [group nth Nat.sub key value confidence];
            repeat split; [ apply Hw | apply Hw | exact Hw_in ]).
Qed.

Lemma extractQuickFacts_keys (text : string) :
  NoDup (map key (extractQuickFacts text)).
Proof.
  destruct (extractQuickFacts_shape text)
    as (favorite & name & -> & Hlf & Hln & Hf & Hn).
  destruct favorite as [|f [|]]; [| |simpl in Hlf; lia];
    destruct name as [|n [|]]; try (simpl in Hln; lia); simpl;
    repeat constructor; simpl; try tauto.
  inversion Hf as [|? ? (w & v & _ & _ & Hk & _) _]; subst.
  inversion Hn as [|? ? (w' & _ & _ & Hk' & _) _]; subst.
  rewrite Hk, Hk'. simpl. intros [H | []]. discriminate.
Qed.

Lemma extractEntitiesViaPhi4_returns (env : extract_env) :
  exists found, extractEntitiesViaPhi4 env = Ok found.
Proof.
  unfold extractEntitiesViaPhi4.
  destruct (entities_of_response (phi4_response env)); eauto.
Qed.

End QuickFactFacts.


(** ** Derived facts *)

Section DerivedFactFacts.

Import Extractor Patterns ExtractedFacts.

(** [entities.find] returns an element on which the predicate held. *)
Lemma find_entity_found (predicate : entity -> result bool) (l : list entity)
  (e : entity) :
  find_entity predicate l = Ok (Some e) -> In e l /\ predicate e = Ok true.
Proof.
  induction l as [|x l IH]; simpl; [discriminate |].
  destruct (predicate x) as [[|]|err] eqn:Hx; simpl.
  - intro H. injection H as <-. auto.
  - intro H. destruct (IH H). auto.
  - discriminate.
Qed.

(** [entities.find] throws only if the predicate throws on an element. *)
Lemma find_entity_returns (predicate : entity -> result bool) (l : list entity) :
  Forall (fun e => exists hit, predicate e = Ok hit) l ->
  exists found, find_entity predicate l = Ok found.
Proof.
  induction 1 as [|x l [hit Hx] _ IH]; simpl; [eauto |].
  rewrite Hx. simpl. destruct hit; [eauto | exact IH].
Qed.

Lemma find_entity_throws (predicate : entity -> result bool) (l : list entity) :
  raises (find_entity predicate l) -> exists e, In e l /\ raises (predicate e).
Proof.
  induction l as [|x l IH]; simpl.
  - intros [err H]. discriminate.
  - destruct (predicate x) as [[|]|err] eqn:Hx; simpl.
    + intros [err H]. discriminate.
    + intro H. destruct (IH H) as (e & Hin & He). eauto.
    + intros _. exists x. split; [auto | exists err; exact Hx].
Qed.

Lemma mentions_hit (span : string) (e : entity) :
  mentions span e = Ok true ->
  exists s, entity_value e = Str s
            /\ includes (toLowerCase span) (toLowerCase s) = true.
Proof.
  unfold mentions. destruct (entity_value e); try discriminate.
  intro H. injection H as H. eauto.
Qed.

Lemma mentions_throws (span : string) (e : entity) :
  raises (mentions span e) -> has_text e = false.
Proof.
  unfold mentions, has_text. destruct (entity_value e); try reflexivity.
  intros [err H]. discriminate.
Qed.

Lemma quotes_span (text : string) (m : list string) (e : entity) (f : fact) :
  Forall (fun c => includes text c = true) m ->
  mentions (trim (group m 1)) e = Ok true ->
  value f = entity_value e ->
  quotes text e f.
Proof.
  intros Hin Hhit Hvalue.
  destruct (mentions_hit _ _ Hhit) as (s & Hs & Hinc).
  exists s. rewrite Hvalue. repeat split; try assumption.
  refine (includes_transitive _ _ _ _ Hinc).
  apply includes_toLowerCase.
  exact (includes_transitive _ _ _ (group_included _ _ 1 Hin) (includes_trim _)).
Qed.

(** The derived facts are at most one fact of the first pattern followed
    by at most one of the second. *)
Lemma extractFactsViaLLM_shape (text : string) (found : list entity)
  (llmFacts : list fact) :
  extractFactsViaLLM text found = Ok llmFacts ->
  exists likes home,
    llmFacts = likes ++ home
    /\ length likes <= 1 /\ length home <= 1
    /\ Forall (likes_fact text found) likes
    /\ Forall (home_fact text found) home.
Proof.
  unfold extractFactsViaLLM.
  match goal with
  | |- bind ?L (fun likes => bind ?H _) = _ -> _ =>
      assert (Hlikes : forall likes, L = Ok likes ->
                length likes <= 1 /\ Forall (likes_fact text found) likes);
      [| assert (Hhome : forall home, H = Ok home ->
                   length home <= 1 /\ Forall (home_fact text found) home);
         [| destruct L as [likes|]; [|discriminate];
            destruct H as [home|]; [|discriminate] ] ]
  end.
  - destruct (regex_match love_regex text) as [m|] eqn:Hm; simpl.
    + apply regex_match_captures in Hm. destruct Hm as [Hin _].
      destruct (find_entity _ found) as [[e|]|err] eqn:Hfind; simpl;
        intros likes H; try discriminate; injection H as <-; simpl;
        (split; [lia |]); [|constructor].
      destruct (find_entity_found _ _ _ Hfind) as [He Hhit].
      constructor; [|constructor].
      exists e. repeat split; try assumption.
      apply (quotes_span _ m); [exact Hin | exact Hhit | reflexivity].
    + intros likes H. injection H as <-. simpl. split; [lia | constructor].
  - destruct (regex_match from_regex text) as [m|] eqn:Hm; simpl.
    + apply regex_match_captures in Hm. destruct Hm as [Hin _].
      destruct (find_entity _ found) as [[e|]|err] eqn:Hfind; simpl;
        intros home H; try discriminate; injection H as <-; simpl;
        (split; [lia |]); [|constructor].
      destruct (find_entity_found _ _ _ Hfind) as [He Hhit].
      constructor; [|constructor].
      destruct (is_string (entity_type e) "place") eqn:Hplace; [|discriminate].
      exists e. repeat split; try assumption.
      * apply (quotes_span _ m); [exact Hin | exact Hhit | reflexivity].
      * unfold is_string in Hplace. destruct (entity_type e); try discriminate.
        apply String.eqb_eq in Hplace. rewrite Hplace. reflexivity.
    + intros home H. injection H as <-. simpl. split; [lia | constructor].
  - simpl. intro H. injection H as <-.
    destruct (Hlikes _ eq_refl), (Hhome _ eq_refl).
    exists likes, home. auto.
Qed.

(** The derivation of facts throws only on a text that one of its two
    patterns matches, and on an entity whose value is no string. *)
Lemma extractFactsViaLLM_throws (text : string) (found : list entity) :
  raises (extractFactsViaLLM text found) ->
  (regex_match love_regex text <> None \/ regex_match from_regex text <> None)
  /\ exists e, In e found /\ has_text e = false.
Proof.
  unfold extractFactsViaLLM.
  destruct (regex_match love_regex text) as [m|] eqn:Hlove.
  - destruct (find_entity (mentions (trim (group m 1))) found)
      as [likes|err] eqn:Hfind.
    + destruct (regex_match from_regex text) as [m'|] eqn:Hfrom.
      * destruct (find_entity _ found) as [home|err] eqn:Hfind' in |- *.
        -- simpl. destruct likes, home; intros [err H]; discriminate.
        -- intros _. split; [left; discriminate |].
           destruct (find_entity_throws _ found (ex_intro _ _ Hfind'))
             as (e & Hin & He).
           exists e. split; [exact Hin |].
           destruct (is_string (entity_type e) "place").
           ++ exact (mentions_throws _ _ He).
           ++ destruct He as [err' He]. discriminate.
      * simpl. destruct likes; intros [err H]; discriminate.
    + intros _. split; [left; discriminate |].
      destruct (find_entity_throws _ found (ex_intro _ _ Hfind)) as (e & Hin & He).
      exists e. split; [exact Hin | exact (mentions_throws _ _ He)].
  - simpl. destruct (regex_match from_regex text) as [m'|] eqn:Hfrom.
    + destruct (find_entity _ found) as [home|err] eqn:Hfind'.
      * simpl. destruct home; intros [err H]; discriminate.
      * intros _. split; [right; discriminate |].
        destruct (find_entity_throws _ found (ex_intro _ _ Hfind'))
          as (e & Hin & He).
        exists e. split; [exact Hin |].
        destruct (is_string (entity_type e) "place").
        -- exact (mentions_throws _ _ He).
        -- destruct He as [err' He]. discriminate.
    + simpl. intros [err H]. discriminate.
Qed.

End DerivedFactFacts.



(** ** Deduplication of facts with different keys *)

Section DistinctKeys.

Import Extractor ExtractedFacts.

Lemma map_set_fresh (k : string) (f : fact) (m : list (string * fact)) :
  ~ In k (map fst m) -> map_set k f m = m ++ [(k, f)].
Proof.
  induction m as [|[k0 f0] m IH]; simpl; intro H; [reflexivity |].
  destruct (String.eqb k0 k) eqn:E.
  - apply String.eqb_eq in E. tauto.
  - rewrite IH by tauto. reflexivity.
Qed.

Lemma collect_fresh (allFacts : list fact) :
  forall m,
    NoDup (map fst m ++ map key allFacts) ->
    collect m allFacts = m ++ map (fun f => (key f, f)) allFacts.
Proof.
  unfold collect.
  induction allFacts as [|f l IH]; simpl; intros m H.
  - rewrite app_nil_r. reflexivity.
  - rewrite map_set_fresh.
    + rewrite IH.
      * rewrite <- app_assoc. reflexivity.
      * rewrite map_app, <- app_assoc. exact H.
    + apply NoDup_remove_2 in H. intro Hin. apply H, in_or_app. auto.
Qed.

(** Facts with different keys pass the deduplication unchanged. *)
Lemma uniqueFacts_distinct (allFacts : list fact) :
  NoDup (map key allFacts) -> uniqueFacts allFacts = allFacts.
Proof.
  intro H. unfold uniqueFacts. fold (collect [] allFacts).
  rewrite collect_fresh by exact H. simpl.
  rewrite map_map. simpl. apply map_id.
Qed.

(** The keys of the quick facts and of the derived facts differ. *)
Lemma all_facts_distinct (text : string) (found : list entity)
  (llmFacts : list fact) :
  extractFactsViaLLM text found = Ok llmFacts ->
  NoDup (map key (extractQuickFacts text ++ llmFacts)).
Proof.
  intro H.
  destruct (extractFactsViaLLM_shape _ _ _ H)
    as (likes & home & -> & Hll & Hlh & Hl & Hh).
  destruct (extractQuickFacts_shape text)
    as (favorite & name & -> & Hlf & Hln & Hf & Hn).
  assert (Hfk : Forall (fun f => exists w, key f = ("favorite_" ++ w)%string) favorite).
  { revert Hf. apply Forall_impl. intros f (w & v & _ & _ & Hk & _). eauto. }
  assert (Hnk : Forall (fun f => key f = "user_name") name).
  { revert Hn. apply Forall_impl. intros f (w & _ & _ & Hk & _). exact Hk. }
  assert (Hlk : Forall (fun f => exists t, key f = ("likes_" ++ t)%string) likes).
  { revert Hl. apply Forall_impl. intros f (e & _ & _ & Hk & _). eauto. }
  assert (Hhk : Forall (fun f => key f = "home_location") home).
  { revert Hh. apply Forall_impl. intros f (e & _ & _ & _ & Hk & _). exact Hk. }
  clear Hf Hn Hl Hh H.
  destruct favorite as [|f1 [|]]; [| |simpl in Hlf; lia];
    destruct name as [|f2 [|]]; try (simpl in Hln; lia);
    destruct likes as [|f3 [|]]; try (simpl in Hll; lia);
    destruct home as [|f4 [|]]; try (simpl in Hlh; lia);
    repeat match goal with
           | H : Forall _ (_ :: _) |- _ => inversion H; subst; clear H
           | H : Forall _ [] |- _ => clear H
           | H : exists _, _ |- _ => destruct H
           end;
    simpl;
    repeat match goal with H : key _ = _ |- _ => rewrite H; clear H end;
    repeat constructor; simpl; intuition discriminate.
Qed.

End DistinctKeys.

(** [uniqueFacts] on its own: a sequence of facts with different keys
    passes unchanged, order included, and deduplicating twice is the same
    as deduplicating once. *)
Theorem uniqueFacts_keeps_distinct_keys (allFacts : list Extractor.fact) :
  (NoDup (map Extractor.key allFacts) -> Extractor.uniqueFacts allFacts = allFacts)
  /\ Extractor.uniqueFacts (Extractor.uniqueFacts allFacts)
     = Extractor.uniqueFacts allFacts.
Proof.
  split; [apply uniqueFacts_distinct |].
  apply uniqueFacts_distinct, uniqueFacts_last_write_wins.
Qed.

Lemma uniqueFacts_keeps_distinct_keys_witness :
  Extractor.uniqueFacts [ExtractorExamples.fact_a1; ExtractorExamples.fact_b]
  = [ExtractorExamples.fact_a1; ExtractorExamples.fact_b].
Proof.
  apply (proj1 (uniqueFacts_keeps_distinct_keys
                  [ExtractorExamples.fact_a1; ExtractorExamples.fact_b])).
  vm_compute. repeat constructor; simpl; intuition discriminate.
Defined.

(** [extract] drops no fact. On the normal path the returned facts are
    the quick facts followed by the derived facts, all of them and in that
    order: the keys of the two patterns of each kind never collide, so the
    deduplication removes nothing. On both paths the keys of the returned
    facts differ. *)
Theorem extract_keeps_every_fact (text : string) (sessionId : js_value)
  (env : Extractor.extract_env) (r : Extractor.extraction) :
  Extractor.extract text sessionId env = Ok r ->
  NoDup (map Extractor.key (Extractor.facts r))
  /\ (Extractor.method r = "phi4_llm" ->
      exists found llmFacts,
        Extractor.extractEntitiesViaPhi4 env = Ok found
        /\ Extractor.extractFactsViaLLM text found = Ok llmFacts
        /\ Extractor.facts r = Extractor.extractQuickFacts text ++ llmFacts).
Proof.
  destruct (extractEntitiesViaPhi4_returns env) as [found Hfound].
  unfold Extractor.extract, Extractor.extract_full. rewrite Hfound. simpl.
  destruct (Extractor.extractFactsViaLLM text found) as [llmFacts|e] eqn:Hllm;
    simpl; intro Hr; injection Hr as <-; simpl.
  - pose proof (all_facts_distinct _ _ _ Hllm) as Hnd.
    rewrite (uniqueFacts_distinct _ Hnd).
    split; [exact Hnd |]. intros _. exists found, llmFacts. auto.
  - split; [apply extractQuickFacts_keys | discriminate].
Qed.

Lemma extract_keeps_every_fact_witness :
  exists r,
    Extractor.extract "My name is Bob. I love Pizza, and I am from Rome."
      (Str "session_1")
      (ExtractorExamples.world
         (ExtractorExamples.response
            [ ExtractorExamples.item "FOOD" "pizza" Undefined;
              ExtractorExamples.item "GPE" "Rome" Undefined ])) = Ok r
    /\ NoDup (map Extractor.key (Extractor.facts r))
    /\ map Extractor.key (Extractor.facts r)
       = ["user_name"; "likes_food"; "home_location"]%string.
Proof.
  destruct (Extractor.extract _ _ _) as [r|e] eqn:Hret;
    [| vm_compute in Hret; discriminate].
  exists r. split; [reflexivity |].
  split; [exact (proj1 (extract_keeps_every_fact _ _ _ _ Hret)) |].
  vm_compute in Hret. injection Hret as <-. reflexivity.
Defined.

(** When [extract] falls back, the text matches one of the two
    patterns of the derivation and the service returned an entity whose
    value is no string. Otherwise, in particular whenever every entity
    carries a string, the method is "phi4_llm". *)
Theorem fallback_needs_entity_without_text (text : string) (sessionId : js_value)
  (env : Extractor.extract_env) (r : Extractor.extraction)
  (found : list Extractor.entity) :
  Extractor.extract text sessionId env = Ok r ->
  Extractor.extractEntitiesViaPhi4 env = Ok found ->
  Extractor.method r = "fallback" ->
  (regex_match Extractor.love_regex text <> None
   \/ regex_match Extractor.from_regex text <> None)
  /\ exists e, In e found /\ ExtractedFacts.has_text e = false.
Proof.
  intros Hret Hfound. unfold Extractor.extract, Extractor.extract_full in Hret.
  rewrite Hfound in Hret. simpl in Hret.
  destruct (Extractor.extractFactsViaLLM text found) as [llmFacts|err] eqn:Hllm;
    simpl in Hret; injection Hret as <-; simpl; [discriminate |].
  intros _. apply extractFactsViaLLM_throws. exists err. exact Hllm.
Qed.

Lemma fallback_needs_entity_without_text_witness :
  exists r e,
    Extractor.extract "I love pizza" (Str "session_1")
      (ExtractorExamples.world
         (ExtractorExamples.response [Object [("type", Str "FOOD")]])) = Ok r
    /\ Extractor.method r = "fallback"
    /\ ExtractedFacts.has_text e = false.
Proof.
  destruct (Extractor.extract _ _ _) as [r|err] eqn:Hret;
    [| vm_compute in Hret; discriminate].
  destruct (Extractor.extractEntitiesViaPhi4
              (ExtractorExamples.world
                 (ExtractorExamples.response [Object [("type", Str "FOOD")]])))
    as [found|err] eqn:Hfound; [| vm_compute in Hfound; discriminate].
  assert (Hmethod : Extractor.method r = "fallback").
  { vm_compute in Hret. injection Hret as <-. reflexivity. }
  destruct (fallback_needs_entity_without_text _ _ _ _ _ Hret Hfound Hmethod)
    as [_ (e & _ & He)].
  exists r, e. auto.
Defined.

(** ** Entity types *)

Section EntityTypeFacts.

Import Extractor.


End EntityTypeFacts.


(** ** Listing entities *)

Section EntityListFacts.

Import EntityStore EntityList.

Local Open Scope Z_scope.

Lemma ranks_before_total (x y : entity_row) :
  ranks_before x y = false -> ranks_before y x = true.
Proof.
  unfold ranks_before.
  rewrite orb_false_iff, andb_false_iff, orb_true_iff, andb_true_iff.
  rewrite !Z.ltb_nlt, !Z.ltb_lt, !Z.eqb_neq, !Z.eqb_eq, !Z.leb_nle, !Z.leb_le. lia.
Qed.

Lemma ranks_before_transitive (x y z : entity_row) :
  ranked x y -> ranked y z -> ranked x z.
Proof.
  unfold ranked, ranks_before.
  rewrite !orb_true_iff, !andb_true_iff.
  rewrite !Z.ltb_lt, !Z.eqb_eq, !Z.leb_le. lia.
Qed.

Lemma order_insert_permutation (x : entity_row) (l : list entity_row) :
  Permutation (order_insert x l) (x :: l).
Proof.
  induction l as [|y l IH]; simpl; [reflexivity |].
  destruct (ranks_before x y); [reflexivity |].
  rewrite IH. apply perm_swap.
Qed.

Lemma order_by_permutation (l : list entity_row) : Permutation (order_by l) l.
Proof.
  induction l as [|x l IH]; simpl; [reflexivity |].
  rewrite order_insert_permutation, IH. reflexivity.
Qed.

Lemma order_insert_sorted (x : entity_row) (l : list entity_row) :
  Sorted ranked l -> Sorted ranked (order_insert x l).
Proof.
  induction 1 as [|y l Hl IH Hhd]; simpl.
  - repeat constructor.
  - destruct (ranks_before x y) eqn:Hxy.
    + constructor; [constructor; assumption | constructor; exact Hxy].
    + constructor; [exact IH |].
      destruct l as [|z l]; simpl.
      * constructor. apply ranks_before_total, Hxy.
      * destruct (ranks_before x z); constructor.
        -- apply ranks_before_total, Hxy.
        -- inversion Hhd; assumption.
Qed.

Lemma order_by_sorted (l : list entity_row) : StronglySorted ranked (order_by l).
Proof.
  apply Sorted_StronglySorted.
  - intros x y z. apply ranks_before_transitive.
  - induction l as [|x l IH]; simpl; [constructor | apply order_insert_sorted, IH].
Qed.

Lemma selected_spec (sessionId : string) (entityType : option string) (r : entity_row) :
  selected sessionId entityType r = true
  <-> session_id r = sessionId
      /\ (Search.missing entityType = false -> entityType = Some (entity_type r)).
Proof.
  unfold selected. rewrite andb_true_iff, String.eqb_eq.
  destruct entityType as [t|]; simpl.
  - destruct (String.length t =? 0)%nat; simpl.
    + intuition discriminate.
    + rewrite String.eqb_eq. split.
      * intros [Hs Ht]. split; [exact Hs | intros _; rewrite Ht; reflexivity].
      * intros [Hs Ht]. split; [exact Hs |].
        specialize (Ht eq_refl). injection Ht as ->. reflexivity.
  - intuition discriminate.
Qed.

Lemma getEntities_rows (db : table) (sessionId : string) (entityType : option string)
  (rows : list entity_row) (r : entity_row) :
  getEntities db sessionId entityType None = Ok rows ->
  In r rows <-> In r db /\ selected sessionId entityType r = true.
Proof.
  unfold getEntities. intro H. injection H as <-.
  rewrite <- filter_In. split; apply Permutation_in.
  - apply order_by_permutation.
  - symmetry. apply order_by_permutation.
Qed.

(** ** One row per entity *)

Lemma entity_key_update_mention (db : table) (i : string) (ts : Z) :
  map entity_key (update_mention db i ts) = map entity_key db.
Proof.
  unfold update_mention. rewrite map_map. apply map_ext.
  intro r. destruct (String.eqb (id r) i); reflexivity.
Qed.

Lemma select_entity_none (db : table) (s t v : string) :
  select_entity db s t v = None -> ~ In (s, t, v) (map entity_key db).
Proof.
  unfold select_entity. intros Hnone Hin.
  apply in_map_iff in Hin. destruct Hin as (r & Hkey & Hin).
  pose proof (find_none _ _ Hnone r Hin) as Hr.
  unfold entity_key in Hkey. injection Hkey as Hs Ht Hv.
  unfold same_entity in Hr. rewrite Hs, Ht, Hv, !String.eqb_refl in Hr.
  discriminate.
Qed.

Lemma perform_keeps_one_row_each (db : table) (c : call) :
  one_row_each db -> one_row_each (fst (perform db c)).
Proof.
  unfold one_row_each. intro Hnd. unfold perform, addEntity.
  destruct (select_error (call_env c)); [exact Hnd |].
  destruct (select_entity db _ _ _) as [existing|] eqn:Hsel.
  - destruct (write_error (call_env c)); [exact Hnd |]. simpl.
    rewrite entity_key_update_mention. exact Hnd.
  - destruct (write_error (call_env c)); [exact Hnd |].
    unfold insert_entity. simpl id.
    destruct (has_id db _); simpl; [exact Hnd |].
    rewrite map_app. simpl.
    apply NoDup_app; [exact Hnd | constructor; [intros [] | constructor] |].
    intros k Hk [<- | []]. exact (select_entity_none _ _ _ _ Hsel Hk).
Qed.

Lemma run_keeps_one_row_each (calls : list call) :
  forall db, one_row_each db -> one_row_each (run db calls).
Proof.
  induction calls as [|c calls IH]; intros db H; [exact H |].
  apply IH, perform_keeps_one_row_each, H.
Qed.

Lemma one_row_each_identifies (db : table) (r r' : entity_row) :
  one_row_each db -> In r db -> In r' db -> entity_key r = entity_key r' -> r = r'.
Proof.
  unfold one_row_each.
  induction db as [|x db IH]; simpl; intros Hnd Hr Hr' Hkey; [contradiction |].
  inversion Hnd as [|? ? Hnotin Hnd']; subst.
  destruct Hr as [-> | Hr], Hr' as [-> | Hr']; auto.
  - exfalso. apply Hnotin. rewrite Hkey. apply in_map, Hr'.
  - exfalso. apply Hnotin. rewrite <- Hkey. apply in_map, Hr.
Qed.

(** The row of the entity after a call that resolves carries the [id] and
    the [mention_count] the call resolved with. *)
Lemma perform_returns_stored (db db' : table) (c : call) (st : stored) :
  perform db c = (db', Ok st) ->
  exists row,
    select_entity db' (call_sessionId c) (call_entityType c) (call_entityValue c)
    = Some row
    /\ id row = returned_id st
    /\ mention_count row = returned_count st
    /\ last_mentioned_at row = current_timestamp (call_env c).
Proof.
  unfold perform, addEntity.
  destruct (select_error (call_env c)); [discriminate |].
  destruct (select_entity db _ _ _) as [existing|] eqn:Hsel.
  - destruct (write_error (call_env c)); [discriminate |].
    intro H. injection H as <- <-.
    rewrite select_update_mention, Hsel. simpl. rewrite String.eqb_refl.
    eexists. split; [reflexivity |]. simpl. auto.
  - destruct (write_error (call_env c)); [discriminate |].
    unfold insert_entity. simpl id.
    destruct (has_id db _); [discriminate |].
    intro H. injection H as <- <-.
    unfold select_entity in *. rewrite find_append, Hsel. simpl.
    unfold same_entity. simpl. rewrite !String.eqb_refl. simpl.
    eexists. split; [reflexivity |]. simpl. auto.
Qed.

End EntityListFacts.

(** [getEntities] lists the rows of the session, every one once and no
    other, most mentioned first and, among rows mentioned equally often,
    the one mentioned last first. A type filters the rows only if it is a
    non-empty string: with the empty string, as without a type, the rows
    of all types are listed. *)
Theorem getEntities_most_mentioned_first (db : EntityStore.table)
  (sessionId : string) (entityType : option string) :
  exists rows,
    EntityList.getEntities db sessionId entityType None = Ok rows
    /\ Permutation rows (filter (EntityList.selected sessionId entityType) db)
    /\ StronglySorted EntityList.ranked rows
    /\ (forall r,
           In r rows <->
           In r db
           /\ EntityStore.session_id r = sessionId
           /\ (Search.missing entityType = false ->
               entityType = Some (EntityStore.entity_type r))).
Proof.
  eexists. split; [reflexivity |].
  split; [apply order_by_permutation |].
  split; [apply order_by_sorted |].
  intro r. rewrite <- selected_spec.
  apply (getEntities_rows db sessionId entityType). reflexivity.
Qed.

Section EntityRoundTrip.

Import EntityStore EntityList.

Lemma NoDup_map_coarser {A B C : Type} (f : A -> B) (g : A -> C) (l : list A) :
  (forall x y, In x l -> In y l -> g x = g y -> f x = f y) ->
  NoDup (map f l) -> NoDup (map g l).
Proof.
  induction l as [|a l IH]; simpl; intros Hfg Hnd; [constructor |].
  inversion Hnd as [|? ? Hnotin Hl]; subst.
  constructor; [|apply IH; auto].
  intro Hin. apply Hnotin. apply in_map_iff in Hin.
  destruct Hin as (y & Hy & Hin).
  rewrite <- (Hfg y a) by auto. apply in_map, Hin.
Qed.

Lemma getEntities_one_row_each (db : table) (sessionId : string)
  (entityType : option string) (rows : list entity_row) :
  one_row_each db ->
  getEntities db sessionId entityType None = Ok rows ->
  one_row_each rows.
Proof.
  unfold one_row_each, getEntities. intros Hnd H. injection H as <-.
  apply (Permutation_NoDup
           (l := map entity_key (filter (selected sessionId entityType) db))).
  - apply Permutation_map. symmetry. apply order_by_permutation.
  - apply NoDup_map_filter, Hnd.
Qed.

End EntityRoundTrip.

(** Calls of [addEntity] made one after the other never give an entity
    a second row: a table with at most one row per session, type and value
    still has at most one after any sequence of calls, resolved or
    rejected, and [getEntities] then lists no two rows with the same type
    and value. *)
Theorem addEntity_keeps_one_row_per_entity (db : EntityStore.table)
  (calls : list EntityStore.call) (sessionId : string) (entityType : option string)
  (rows : list EntityStore.entity_row) :
  EntityList.one_row_each db ->
  EntityList.getEntities (EntityStore.run db calls) sessionId entityType None
  = Ok rows ->
  EntityList.one_row_each (EntityStore.run db calls)
  /\ NoDup (map (fun r => (EntityStore.entity_type r, EntityStore.entity_value r))
              rows).
Proof.
  intros Hdb Hrows.
  pose proof (run_keeps_one_row_each calls db Hdb) as Hrun.
  split; [exact Hrun |].
  pose proof (getEntities_one_row_each _ _ _ _ Hrun Hrows) as Hone.
  revert Hone. apply NoDup_map_coarser.
  intros x y Hx Hy Heq.
  apply (getEntities_rows _ _ _ _ _ Hrows) in Hx, Hy.
  destruct Hx as [_ Hx], Hy as [_ Hy].
  apply selected_spec in Hx, Hy. destruct Hx as [Hx _], Hy as [Hy _].
  unfold EntityList.entity_key. injection Heq as Ht Hv.
  rewrite Hx, Hy, Ht, Hv. reflexivity.
Qed.

Lemma addEntity_keeps_one_row_per_entity_witness :
  exists rows,
    EntityList.getEntities (EntityStore.run [] EntityStoreExamples.five_calls)
      "session_1" None None = Ok rows
    /\ map EntityStore.entity_value rows = ["Bob"; "Amy"]%string
    /\ map EntityStore.mention_count rows = [3; 1]%Z
    /\ NoDup (map (fun r => (EntityStore.entity_type r, EntityStore.entity_value r))
                rows).
Proof.
  destruct (EntityList.getEntities _ _ _ _) as [rows|e] eqn:Hret;
    [| vm_compute in Hret; discriminate].
  exists rows. split; [reflexivity |].
  pose proof (addEntity_keeps_one_row_per_entity [] EntityStoreExamples.five_calls
                "session_1" None rows (NoDup_nil _) Hret) as [_ Hnd].
  vm_compute in Hret. injection Hret as <-.
  split; [reflexivity |]. split; [reflexivity |]. exact Hnd.
Defined.

(** What [entity.add] answers is what [entity.list] then shows. After
    an [entity.add] answered with status "ok", on a table with at most one
    row per entity, [entity.list] for the same session and type answers
    with the entities and their number, and exactly one of them has the
    value added: it carries the [id] and the [mention_count] of the answer
    of [entity.add]. *)
Theorem entity_add_then_entity_list (db db' : EntityStore.table)
  (payload : EntityList.add_payload) (env : EntityStore.store_env)
  (st : EntityStore.stored) :
  EntityList.one_row_each db ->
  EntityList.entity_add db payload env = (db', EntityList.Answer st) ->
  exists rows row,
    EntityList.entity_list db'
      {| EntityList.list_sessionId := EntityList.add_sessionId payload;
         EntityList.list_entityType := EntityList.add_entityType payload |}
      None
    = EntityList.Answer (rows, length rows)
    /\ In row rows
    /\ EntityList.add_entityValue payload = Some (EntityStore.entity_value row)
    /\ EntityStore.id row = EntityList.returned_id st
    /\ EntityStore.mention_count row = EntityList.returned_count st
    /\ (forall other,
           In other rows ->
           EntityStore.entity_value other = EntityStore.entity_value row ->
           other = row).
Proof.
  intros Hone. unfold EntityList.entity_add, EntityList.entity_list. simpl.
  destruct (EntityList.add_sessionId payload) as [s|] eqn:Hs; [|discriminate].
  destruct (EntityList.add_entityType payload) as [t|] eqn:Ht;
    [| simpl; rewrite orb_true_r; discriminate].
  destruct (EntityList.add_entityValue payload) as [v|] eqn:Hv;
    [| simpl; rewrite !orb_true_r; discriminate].
  simpl.
  destruct (String.length s =? 0)%nat eqn:Hs0; [discriminate |].
  destruct (String.length t =? 0)%nat eqn:Ht0; [discriminate |].
  destruct (String.length v =? 0)%nat eqn:Hv0; [discriminate |]. simpl.
  set (c := {| EntityStore.call_sessionId := s;
               EntityStore.call_entityType := t;
               EntityStore.call_entityValue := v;
               EntityStore.call_metadata :=
                 Search.with_default "{}" (EntityList.add_metadata payload);
               EntityStore.call_env := env |}).
  change (EntityStore.addEntity db s t v _ env) with (EntityStore.perform db c).
  destruct (EntityStore.perform db c) as [db1 [st1|err]] eqn:Hperform;
    [|discriminate].
  intro H. injection H as <- <-.
  destruct (perform_returns_stored _ _ _ _ Hperform)
    as (row & Hsel & Hid & Hcount & _).
  simpl in Hsel. apply select_entity_some in Hsel. destruct Hsel as [Hin Hsame].
  apply same_entity_eq in Hsame. destruct Hsame as (Hrs & Hrt & Hrv).
  pose proof (perform_keeps_one_row_each db c Hone) as Hone1.
  rewrite Hperform in Hone1. simpl in Hone1.
  eexists. exists row. split; [reflexivity |].
  assert (Hrows : forall r,
             In r (EntityList.order_by
                     (filter (EntityList.selected s (Some t)) db1))
             <-> In r db1 /\ EntityList.selected s (Some t) r = true).
  { intro r. apply (getEntities_rows db1 s (Some t)). reflexivity. }
  assert (Hselected : forall r, EntityList.selected s (Some t) r = true <->
                                EntityStore.session_id r = s
                                /\ EntityStore.entity_type r = t).
  { intro r. rewrite selected_spec. simpl. rewrite Ht0. split.
    - intros [H1 H2]. specialize (H2 eq_refl). injection H2 as ->. auto.
    - intros [H1 H2]. rewrite H2. auto. }
  split; [apply Hrows; split; [exact Hin | apply Hselected; auto] |].
  split; [rewrite Hrv; reflexivity |].
  split; [exact Hid |]. split; [exact Hcount |].
  intros other Hother Hvalue.
  apply Hrows in Hother. destruct Hother as [Hother Hsel].
  apply Hselected in Hsel. destruct Hsel as [Hos Hot].
  apply (one_row_each_identifies db1); try assumption.
  unfold EntityList.entity_key. rewrite Hos, Hot, Hvalue, Hrs, Hrt. reflexivity.
Qed.

Lemma entity_add_then_entity_list_witness :
  exists db' st rows,
    EntityList.entity_add []
      {| EntityList.add_sessionId := Some "session_1"%string;
         EntityList.add_entityType := Some "person"%string;
         EntityList.add_entityValue := Some "Bob"%string;
         EntityList.add_metadata := None |}
      (EntityStoreExamples.world false 10 1761152400000 "0a1b2c3d")
    = (db', EntityList.Answer st)
    /\ EntityList.entity_list db'
         {| EntityList.list_sessionId := Some "session_1"%string;
            EntityList.list_entityType := Some "person"%string |} None
       = EntityList.Answer (rows, length rows)
    /\ length rows = 1%nat.
Proof.
  destruct (EntityList.entity_add [] _ _) as [db' [st|status code message]] eqn:Hadd;
    [| vm_compute in Hadd; discriminate].
  destruct (entity_add_then_entity_list [] db' _ _ st (NoDup_nil _) Hadd)
    as (rows & row & Hlist & _).
  exists db', st, rows. split; [reflexivity |]. split; [exact Hlist |].
  vm_compute in Hadd. injection Hadd as <- _.
  vm_compute in Hlist. injection Hlist as <-. reflexivity.
Defined.



(** ** Errors of the search *)

Section SearchErrorFacts.

Import Search SearchResult.

Context {num : Type} {N : JsNumber num}.



End SearchErrorFacts.



(** A response of the expected shape gives one candidate per item, in
    the order of the items: its type is the normalized type of the item,
    its value the [text] of the item or, where that is absent or empty, its
    [value], and its positions are the item's [start] and [end]. *)
Theorem extractEntitiesViaPhi4_one_candidate_per_item
  (env : Extractor.extract_env) (data : js_value) :
  Extractor.phi4_response env = Ok data ->
  Extractor.expected_shape data = true ->
  exists items found,
    Extractor.response_entities data = Some items
    /\ Extractor.extractEntitiesViaPhi4 env = Ok found
    /\ length found = length items
    /\ Forall2
         (fun raw c =>
            Extractor.normalizeEntityType (get_optional raw "type")
            = Ok (Extractor.entity_type c)
            /\ Extractor.entity_value c
               = or_else (get_optional raw "text") (get_optional raw "value")
            /\ Extractor.startPos c = get_optional raw "start"
            /\ Extractor.endPos c = get_optional raw "end")
         items found.
Proof.
  intros Hdata Hshape.
  destruct (extractEntitiesViaPhi4_cases env)
    as [(data' & items & found & Hd & Hitems & Hmap & Hret) | [Hnot _]].
  2:{ rewrite (Hnot data Hdata) in Hshape. discriminate. }
  rewrite Hdata in Hd. injection Hd as <-.
  exists items, found. split; [exact Hitems |]. split; [exact Hret |].
  apply array_map_ok in Hmap.
  split; [symmetry; exact (Forall2_length Hmap) |].
  clear Hitems Hret.
  induction Hmap as [|raw c items' found' Hc _ IH]; [constructor |].
  constructor; [|exact IH].
  destruct (candidate_inversion raw c Hc) as [Htyped _].
  destruct (candidate_of_typed_item raw Htyped) as (type & Htype & Hrecord).
  rewrite Hrecord in Hc. injection Hc as <-. simpl. auto.
Qed.

Lemma extractEntitiesViaPhi4_one_candidate_per_item_witness :
  exists found,
    Extractor.extractEntitiesViaPhi4
      (ExtractorExamples.world
         (ExtractorExamples.response ExtractorExamples.three_items)) = Ok found
    /\ length found = 3.
Proof.
  destruct (extractEntitiesViaPhi4_one_candidate_per_item
              (ExtractorExamples.world
                 (ExtractorExamples.response ExtractorExamples.three_items))
              _ eq_refl eq_refl)
    as (items & found & Hitems & Hret & Hlen & _).
  exists found. split; [exact Hret |].
  vm_compute in Hitems. injection Hitems as <-. exact Hlen.
Defined.

(** ** A negative [includeRecent] *)

Section NegativeIncludeRecent.

Import Search SearchResult.

Context {num : Type} {N : JsNumber num}.

(** With a negative [includeRecent] both [slice]s count from the end: the
    recent part is all but the last [- includeRecent] messages, the
    candidates of the semantic part are those last ones. *)
Lemma recent_and_rest_from_end (scoredMessages : list (scored_message num)) (ir : Z) :
  (ir < 0)%Z ->
  recentMessages scoredMessages ir
  = firstn (length scoredMessages - Z.to_nat (- ir)) scoredMessages
  /\ slice_from scoredMessages ir
     = skipn (length scoredMessages - Z.to_nat (- ir)) scoredMessages.
Proof.
  intro Hir.
  set (len := Z.of_nat (length scoredMessages)).
  assert (Hk : Z.to_nat (relative_index len ir)
               = (length scoredMessages - Z.to_nat (- ir))%nat).
  { unfold relative_index. apply Z.ltb_lt in Hir. rewrite Hir. unfold len. lia. }
  split.
  - unfold recentMessages. rewrite slice_from_start. fold len. rewrite Hk.
    reflexivity.
  - unfold slice_from, slice. fold len. rewrite Hk.
    apply firstn_all2. rewrite length_skipn.
    replace (relative_index len len) with len
      by (unfold relative_index; destruct (len <? 0)%Z eqn:E; lia).
    pose proof (relative_index_range len ir (Nat2Z.is_nonneg _)) as Hrange.
    unfold len in *. lia.
Qed.

Lemma filter_recent_tagged (recent semantic : list (scored_message num)) :
  filter is_recent (map (tag "recent") recent ++ map (tag "semantic") semantic)
  = map (tag "recent") recent.
Proof.
  rewrite filter_app.
  assert (H1 : filter is_recent (map (tag "recent") recent) = map (tag "recent") recent).
  { induction recent as [|x l IH]; simpl; [reflexivity | rewrite IH; reflexivity]. }
  assert (H2 : filter is_recent (map (tag "semantic") semantic) = []).
  { induction semantic as [|x l IH]; simpl; [reflexivity | exact IH]. }
  rewrite H1, H2. apply app_nil_r.
Qed.

End NegativeIncludeRecent.

(** A negative [includeRecent] does not switch the recent part off: the
    [slice]s count from the end, so all rows but the oldest
    [- includeRecent] are returned with the reason "recent", whatever
    [limit] and their similarity are, and only those oldest rows can be
    returned with the reason "semantic". *)
Theorem negative_includeRecent_returns_all_but_the_oldest
  {num : Type} {N : JsNumber num}
  (payload : Search.search_payload num) (env : Search.search_env num)
  (r : Search.search_result num) (rows : list (Search.message_row num)) :
  Search.searchMessages payload env = Ok r ->
  Search.db_messages env = Ok rows ->
  (Search.includeRecent_of payload < 0)%Z ->
  let oldest := Z.to_nat (- Search.includeRecent_of payload) in
  map SearchResult.message_id (filter Search.is_recent (Search.messages r))
  = map Search.msg_id (firstn (length rows - oldest) rows)
  /\ forall m,
      In m (Search.messages r) ->
      Search.reason m = "semantic" ->
      In (SearchResult.message_id m)
        (map Search.msg_id (skipn (length rows - oldest) rows)).
Proof.
  intros Hret Hdb Hir oldest.
  destruct (searchMessages_returns _ _ _ Hret)
    as (q & rows' & scored & _ & Hdb' & Hmap & Hmessages & _).
  rewrite Hdb in Hdb'. injection Hdb' as <-.
  pose proof (scored_ids _ _ _ Hmap) as Hids.
  assert (Hlen : length scored = length rows).
  { rewrite <- (length_map Search.sm_id scored), Hids. apply length_map. }
  destruct (recent_and_rest_from_end scored _ Hir) as [Hrecent Hrest].
  rewrite Hlen in Hrecent, Hrest. fold oldest in Hrecent, Hrest.
  rewrite Hmessages. unfold Search.combinedMessages. split.
  - rewrite filter_recent_tagged, Hrecent, map_map.
    transitivity (map Search.sm_id (firstn (length rows - oldest) scored));
      [apply map_ext; reflexivity |].
    rewrite <- firstn_map, Hids, firstn_map. reflexivity.
  - intros m Hin Hreason. apply in_app_or in Hin. destruct Hin as [Hin | Hin].
    + apply in_map_iff in Hin. destruct Hin as (x & <- & _).
      simpl in Hreason. discriminate.
    + apply in_map_iff in Hin. destruct Hin as (x & <- & Hx).
      apply semanticMatches_from_rest in Hx. destruct Hx as [Hx _].
      rewrite Hrest in Hx. unfold SearchResult.message_id. simpl.
      rewrite <- skipn_map, <- Hids, skipn_map. apply in_map, Hx.
Qed.

Lemma negative_includeRecent_returns_all_but_the_oldest_witness :
  exists r,
    Search.searchMessages (SearchExamples.request (Some 1%Z) None (Some (-1)%Z))
      (SearchExamples.world SearchExamples.five_rows) = Ok r
    /\ map SearchResult.message_id (filter Search.is_recent (Search.messages r))
       = ["m5"; "m4"; "m3"; "m2"]%string.
Proof.
  destruct (Search.searchMessages _ _) as [r|e] eqn:Hret;
    [| vm_compute in Hret; discriminate].
  exists r. split; [reflexivity |].
  exact (proj1 (negative_includeRecent_returns_all_but_the_oldest
                  _ _ r SearchExamples.five_rows Hret eq_refl eq_refl)).
Defined.
